(** * terrainbento: the baselevel boundary-condition handlers

    A shallow embedding of
    [terrainbento/boundary_condition_handlers/single_node_baselevel_handler.py]
    and
    [terrainbento/boundary_condition_handlers/closed_node_baselevel_handler.py].

    Python floats are modelled by exact rationals [Q]: rounding, infinities
    and NaN are outside the model, so every equation between elevations is
    stated up to [Qeq] and reads "up to floating-point accumulation".
    numpy arrays live in a store indexed by array identity, because the
    handlers keep a reference ([self.z]) to an array owned by the grid. *)

From Stdlib Require Import QArith Qabs Qminmax Lqa.
From stdpp Require Import base option list gmap strings.

(** ** Exceptions and the state-and-exception monad *)

Inductive exn : Set :=
  | ValueError
  | KeyError
  | IndexError
  | TypeError
  | NameError
  | UnboundLocalError
  | OSError.

Inductive outcome (A : Type) : Type :=
  | Return (a : A)
  | Raise (e : exn).
Arguments Return {A} a.
Arguments Raise {A} e.

(** A Python statement run on a state [S]: it returns or raises, and in
    both cases leaves a state behind (mutations made before a [raise]
    stay). *)
Definition M (S A : Type) : Type := S → outcome A * S.

#[global] Instance M_ret {S} : MRet (M S) := λ A a s, (Return a, s).
#[global] Instance M_bind {S} : MBind (M S) := λ A B k m s,
  match m s with
  | (Return a, s') => k a s'
  | (Raise e, s') => (Raise e, s')
  end.

Definition raise {S A} (e : exn) : M S A := λ s, (Raise e, s).
Definition gets {S A} (f : S → A) : M S A := λ s, (Return (f s), s).
Definition modify {S} (f : S → S) : M S unit := λ s, (Return tt, f s).
Definition lift_outcome {S A} (o : outcome A) : M S A := λ s, (o, s).

(** ** The grid, its arrays and the file system *)

(** Identity of a numpy array. *)
Definition loc : Set := positive.

(** What [np.loadtxt(path, skiprows=1, delimiter=',')] finds in a file: the
    first two columns of its data rows, or text it cannot convert. *)
Inductive file : Type :=
  | Table (rows : list (Q * Q))
  | Unparsable.

(** The landlab grid as far as the handlers use it: the [at_node] dict
    from field names to arrays, and [status_at_node]. *)
Record Grid : Type := mkGrid {
  at_node : gmap string loc;
  status_at_node : list Z
}.

Record World : Type := mkWorld {
  grid : Grid;
  arrays : gmap loc (list Q);
  files : gmap string file
}.

(** The contents of an array; a location that holds no array reads as the
    empty array, so that every index into it is out of range. *)
Definition array_of (w : World) (a : loc) : list Q := default [] (arrays w !! a).

Definition store (a : loc) (l : list Q) (w : World) : World :=
  mkWorld (grid w) (<[a := l]> (arrays w)) (files w).

(** [grid.at_node[name]] *)
Definition field (name : string) : M World loc := λ w,
  match at_node (grid w) !! name with
  | Some a => (Return a, w)
  | None => (Raise KeyError, w)
  end.

(** [name in grid.at_node] *)
Definition has_field (name : string) : M World bool :=
  gets (λ w, bool_decide (is_Some (at_node (grid w) !! name))).

(** [a[i]] for a node id [i] *)
Definition getitem (a : loc) (i : nat) : M World Q := λ w,
  match array_of w a !! i with
  | Some v => (Return v, w)
  | None => (Raise IndexError, w)
  end.

(** [a[i] = v] *)
Definition setitem (a : loc) (i : nat) (v : Q) : M World unit := λ w,
  if decide (i < length (array_of w a))%nat
  then (Return tt, store a (<[i := v]> (array_of w a)) w)
  else (Raise IndexError, w).

(** Boolean-mask indexing, [a[mask]]: the entries of [a] where [mask] holds. *)
Fixpoint select (mask : list bool) (l : list Q) : list Q :=
  match mask, l with
  | b :: mask', v :: l' => if b then v :: select mask' l' else select mask' l'
  | _, _ => []
  end.

(** [a[mask] = vals]: the selected entries are overwritten, in order. *)
Fixpoint assign (mask : list bool) (vals : list Q) (l : list Q) : list Q :=
  match mask, l with
  | true :: mask', v :: l' =>
      match vals with
      | v' :: vals' => v' :: assign mask' vals' l'
      | [] => v :: assign mask' [] l'
      end
  | false :: mask', v :: l' => v :: assign mask' vals l'
  | _, _ => l
  end.

(** How many entries a mask selects. *)
Fixpoint count (mask : list bool) : nat :=
  match mask with
  | [] => 0
  | b :: mask' => (if b then 1 else 0) + count mask'
  end.

(** [a[mask]]: numpy raises IndexError when the mask and the array differ
    in length. *)
Definition getmask (a : loc) (mask : list bool) : M World (list Q) := λ w,
  if decide (length mask = length (array_of w a))
  then (Return (select mask (array_of w a)), w)
  else (Raise IndexError, w).

(** [a[mask] = vals]: IndexError as above, ValueError when [vals] does not
    have one value per selected entry. *)
Definition setmask (a : loc) (mask : list bool) (vals : list Q) : M World unit := λ w,
  if decide (length mask = length (array_of w a))
  then if decide (length vals = count mask)
       then (Return tt, store a (assign mask vals (array_of w a)) w)
       else (Raise ValueError, w)
  else (Raise IndexError, w).

(** [os.path.exists(path)] *)
Definition path_exists (path : string) : M World bool :=
  gets (λ w, bool_decide (is_Some (files w !! path))).

(** [np.loadtxt(path, skiprows=1, delimiter=',')] followed by the two
    column slices [df[:, 0]] and [df[:, 1]].  With fewer than two data rows
    loadtxt returns a one-dimensional array and the slices raise
    IndexError; text that is not numeric makes loadtxt raise ValueError, a
    missing file OSError. *)
Definition loadtxt_columns (path : string) : M World (list Q * list Q) := λ w,
  match files w !! path with
  | Some (Table rows) =>
      if decide (2 ≤ length rows)%nat
      then (Return (rows.*1, rows.*2), w)
      else (Raise IndexError, w)
  | Some Unparsable => (Raise ValueError, w)
  | None => (Raise OSError, w)
  end.

(** [np.mean] *)
Definition Qsum (l : list Q) : Q := foldr Qplus 0%Q l.
Definition mean (l : list Q) : Q := (Qsum l / inject_Z (Z.of_nat (length l)))%Q.

(** ** [scipy.interpolate.interp1d], linear kind with the default bounds
    check *)

(** The constructor sorts the knots by abscissa with a stable sort
    ([assume_sorted=False]). *)
Fixpoint insert_knot (k : Q * Q) (l : list (Q * Q)) : list (Q * Q) :=
  match l with
  | [] => [k]
  | k' :: l' => if Qle_bool k.1 k'.1 then k :: l else k' :: insert_knot k l'
  end.

Definition sort_knots (l : list (Q * Q)) : list (Q * Q) := foldr insert_knot [] l.

Definition interp1d (x y : list Q) : list (Q * Q) := sort_knots (zip x y).

(** [np.interp] inside the range: walk to the last knot at or before [t]
    and follow the segment that starts there. *)
Fixpoint np_interp (t x0 y0 : Q) (rest : list (Q * Q)) : Q :=
  match rest with
  | [] => y0
  | (x1, y1) :: rest' =>
      if Qle_bool x1 t then np_interp t x1 y1 rest'
      else ((y1 - y0) / (x1 - x0) * (t - x0) + y0)%Q
  end.

(** Calling the interpolant: ValueError below the first or above the last
    knot. *)
Definition interp1d_call (f : list (Q * Q)) (t : Q) : outcome Q :=
  match f with
  | [] => Raise ValueError
  | (x0, y0) :: rest =>
      if Qle_bool x0 t && Qle_bool t (List.last rest.*1 x0)
      then Return (np_interp t x0 y0 rest)
      else Raise ValueError
  end.

(** ** A handler together with the world it acts on *)

Record State (H : Type) : Type := mkState {
  self : H;
  world : World
}.
Arguments mkState {H} self world.
Arguments self {H} s.
Arguments world {H} s.

Definition in_world {H A} (m : M World A) : M (State H) A := λ s,
  let (r, w) := m (world s) in (r, mkState (self s) w).

Definition from_option {S A} (e : exn) (o : option A) : M S A :=
  match o with
  | Some a => mret a
  | None => raise e
  end.

(** ** [SingleNodeBaselevelHandler] *)

Module SingleNodeBaselevelHandler.

(** Node ids are positions in the at-node arrays, counted from 0.  The
    handler keeps [self.z], a reference to the array that the grid's
    elevation field held when the handler was built. *)
Record Handler : Type := mkHandler {
  model_time : Q;
  outlet_node : nat;
  z : loc;
  lowering_rate : option Q;
  outlet_elevation_obj : option (list (Q * Q))
}.

(** The constructor.  The initialiser of the landlab base class, called
    first, belongs to landlab and is taken to leave the fields alone. *)
Definition __init__ (outlet_node : nat)
    (lowering_rate : option Q) (lowering_file_path : option string)
    (model_end_elevation : option Q) : M World Handler :=
  let model_time := 0%Q in
  z ← field "topographic__elevation";
  match lowering_file_path, lowering_rate with
  | None, None => raise ValueError
  | Some path, None =>
      ex ← path_exists path;
      if ex : bool then
        model_start_elevation ← getitem z outlet_node;
        '(time, elev_change) ← loadtxt_columns path;
        let scaling_factor :=
          match model_end_elevation with
          | None => 1%Q
          | Some e =>
              (Qabs (model_start_elevation - e)
               / Qabs (hd 0 elev_change - List.last elev_change 0))%Q
          end in
        let outlet_elevation :=
          map (λ c, scaling_factor * c + model_start_elevation)%Q elev_change in
        mret (mkHandler model_time outlet_node z None
                (Some (interp1d time outlet_elevation)))
      else raise ValueError
  | None, Some rate =>
      mret (mkHandler model_time outlet_node z (Some rate) None)
  | Some _, Some _ => raise ValueError
  end.

Definition advance_time (dt : Q) (h : Handler) : Handler :=
  mkHandler (model_time h + dt)%Q (outlet_node h) (z h)
    (lowering_rate h) (outlet_elevation_obj h).

Definition run_one_step (dt : Q) : M (State Handler) unit :=
  h ← gets self;
  match outlet_elevation_obj h with
  | None =>
      v ← in_world (getitem (z h) (outlet_node h));
      rate ← from_option TypeError (lowering_rate h);
      in_world (setitem (z h) (outlet_node h) (v + rate * dt)%Q);;
      has ← in_world (has_field "bedrock__elevation");
      if has : bool then
        b ← in_world (field "bedrock__elevation");
        bv ← in_world (getitem b (outlet_node h));
        rate ← from_option TypeError (lowering_rate h);
        in_world (setitem b (outlet_node h) (bv + rate * dt)%Q)
      else mret tt
  | Some f =>
      v ← in_world (getitem (z h) (outlet_node h));
      target ← lift_outcome (interp1d_call f (model_time h));
      let topo_change := (v - target)%Q in
      has ← in_world (has_field "bedrock__elevation");
      (if has : bool then
         b ← in_world (field "bedrock__elevation");
         bv ← in_world (getitem b (outlet_node h));
         in_world (setitem b (outlet_node h) (bv - topo_change)%Q)
       else mret tt);;
      zv ← in_world (getitem (z h) (outlet_node h));
      in_world (setitem (z h) (outlet_node h) (zv - topo_change)%Q)
  end;;
  modify (λ s, mkState (advance_time dt (self s)) (world s)).

End SingleNodeBaselevelHandler.

(** ** [ClosedNodeBaselevelHandler] *)

(** Reading a name that is bound neither in the function, nor in the
    module, nor in the builtins. *)
Definition unbound_name {S A} : M S A := raise NameError.

Module ClosedNodeBaselevelHandler.

Record Handler : Type := mkHandler {
  model_time : Q;
  modify_closed_nodes : bool;
  z : loc;
  nodes_to_lower : list bool;
  prefactor : Q;
  lowering_rate : option Q;
  outlet_elevation_obj : option (list (Q * Q))
}.

(** [model_start_elevation] is a local variable that only one branch
    assigns: [None] is the unbound local. *)
Definition __init__ (modify_closed_nodes : bool)
    (lowering_rate : option Q) (lowering_file_path : option string)
    (model_end_elevation : option Q) : M World Handler :=
  let model_time := 0%Q in
  z ← field "topographic__elevation";
  status ← gets (λ w, status_at_node (grid w));
  let nodes_to_lower :=
    if modify_closed_nodes
    then map (λ s, negb (s =? 0)%Z) status
    else map (λ s, (s =? 0)%Z) status in
  let prefactor := if modify_closed_nodes then 1%Q else (-1)%Q in
  match lowering_file_path, lowering_rate with
  | None, None => raise ValueError
  | Some path, None =>
      ex ← path_exists path;
      if ex : bool then
        '(time, elev_change) ← loadtxt_columns path;
        '(scaling_factor, model_start_elevation) ←
          match model_end_elevation with
          | None => mret (1%Q, None)
          | Some e =>
              selected ← getmask z nodes_to_lower;
              let model_start_elevation := mean selected in
              mret ((Qabs (model_start_elevation - e)
                     / Qabs (hd 0 elev_change - List.last elev_change 0))%Q,
                    Some model_start_elevation)
          end;
        start ← from_option UnboundLocalError model_start_elevation;
        let outlet_elevation :=
          map (λ c, scaling_factor * c + start)%Q elev_change in
        mret (mkHandler model_time modify_closed_nodes z nodes_to_lower
                prefactor None (Some (interp1d time outlet_elevation)))
      else raise ValueError
  | None, Some rate =>
      mret (mkHandler model_time modify_closed_nodes z nodes_to_lower
              prefactor (Some rate) None)
  | Some _, Some _ => raise ValueError
  end.

Definition advance_time (dt : Q) (h : Handler) : Handler :=
  mkHandler (model_time h + dt)%Q (modify_closed_nodes h) (z h)
    (nodes_to_lower h) (prefactor h) (lowering_rate h)
    (outlet_elevation_obj h).

(** In the constant-rate branch the first statement indexes [self.z]
    with the bare name [nodes_to_lower], which nothing binds. *)
Definition run_one_step (dt : Q) : M (State Handler) unit :=
  modify (λ s, mkState (advance_time dt (self s)) (world s));;
  h ← gets self;
  match outlet_elevation_obj h with
  | None =>
      mask ← unbound_name;
      vs ← in_world (getmask (z h) mask);
      rate ← from_option TypeError (lowering_rate h);
      in_world (setmask (z h) mask
                  (map (λ v, v + prefactor h * rate * dt)%Q vs));;
      has ← in_world (has_field "bedrock__elevation");
      if has : bool then
        b ← in_world (field "bedrock__elevation");
        bvs ← in_world (getmask b (nodes_to_lower h));
        rate ← from_option TypeError (lowering_rate h);
        in_world (setmask b (nodes_to_lower h)
                    (map (λ v, v + prefactor h * rate * dt)%Q bvs))
      else mret tt
  | Some f =>
      vs ← in_world (getmask (z h) (nodes_to_lower h));
      target ← lift_outcome (interp1d_call f (model_time h));
      let topo_change := map (λ v, prefactor h * (v - target))%Q vs in
      has ← in_world (has_field "bedrock__elevation");
      (if has : bool then
         b ← in_world (field "bedrock__elevation");
         bvs ← in_world (getmask b (nodes_to_lower h));
         in_world (setmask b (nodes_to_lower h) (zip_with Qminus bvs topo_change))
       else mret tt);;
      zvs ← in_world (getmask (z h) (nodes_to_lower h));
      in_world (setmask (z h) (nodes_to_lower h) (zip_with Qminus zvs topo_change))
  end.

End ClosedNodeBaselevelHandler.

(** Running a handler for several steps, one [run_one_step] per entry. *)
Fixpoint run_steps {S} (step : Q → M S unit) (dts : list Q) : M S unit :=
  match dts with
  | [] => mret tt
  | dt :: dts' => step dt;; run_steps step dts'
  end.

(** ** More of numpy: whole arrays, broadcasting and index arrays *)

(** [x < y] on array entries. *)
Definition Qlt_bool (x y : Q) : bool := negb (Qle_bool y x).

(** The array [a] as a value. *)
Definition getarray (a : loc) : M World (list Q) := gets (λ w, array_of w a).

(** An elementwise operation on two one-dimensional arrays: equal sizes,
    or one operand of size 1 that is stretched; anything else is a
    ValueError. *)
Definition broadcast (f : Q → Q → Q) (a b : list Q) : outcome (list Q) :=
  if decide (length a = length b) then Return (zip_with f a b)
  else match a, b with
       | [x], _ => Return (map (f x) b)
       | _, [y] => Return (map (λ x, f x y) a)
       | _, _ => Raise ValueError
       end.

(** [a[:] = vals]: [vals] has the size of [a], or size 1 and fills [a]. *)
Definition setslice (a : loc) (vals : list Q) : M World unit := λ w,
  if decide (length vals = length (array_of w a))
  then (Return tt, store a vals w)
  else match vals with
       | [v] => (Return tt, store a (replicate (length (array_of w a)) v) w)
       | _ => (Raise ValueError, w)
       end.

(** [a[mask] = v] for a scalar [v]. *)
Definition setmask_scalar (a : loc) (mask : list bool) (v : Q) : M World unit :=
  setmask a mask (replicate (count mask) v).

(** [a[idx]] for an array [idx] of node ids. *)
Definition getindices (a : loc) (idx : list nat) : M World (list Q) := λ w,
  match mapM (λ i, array_of w a !! i) idx with
  | Some vs => (Return vs, w)
  | None => (Raise IndexError, w)
  end.

(** Writing [vals] at the positions [idx], in order. *)
Fixpoint put (idx : list nat) (vals : list Q) (l : list Q) : list Q :=
  match idx, vals with
  | i :: idx', v :: vals' => put idx' vals' (<[i := v]> l)
  | _, _ => l
  end.

(** [a[idx] = vals]: the values are matched to the index array first
    (ValueError), the ids are checked against [a] next (IndexError). *)
Definition setindices (a : loc) (idx : list nat) (vals : list Q) : M World unit := λ w,
  let fitted :=
    if decide (length vals = length idx) then Some vals
    else match vals with
         | [v] => Some (replicate (length idx) v)
         | _ => None
         end in
  match fitted with
  | None => (Raise ValueError, w)
  | Some vals' =>
      if decide (Forall (λ i, i < length (array_of w a))%nat idx)
      then (Return tt, store a (put idx vals' (array_of w a)) w)
      else (Raise IndexError, w)
  end.

(** [grid.core_nodes]: the ids of the nodes of status 0, ascending. *)
Fixpoint core_from (i : nat) (status : list Z) : list nat :=
  match status with
  | [] => []
  | s :: status' =>
      if (s =? 0)%Z then i :: core_from (S i) status' else core_from (S i) status'
  end.

Definition core_nodes (g : Grid) : list nat := core_from 0 (status_at_node g).

(** ** [BasicDdSt]: the erosion threshold *)

Module BasicDdSt.

(** The attributes that [update_threshold_field] reads: [z], the
    elevation array kept by the base class, and the threshold array and the
    two parameters set in [__init__]. *)
Record Model : Type := mkModel {
  z : loc;
  threshold : loc;
  threshold_value : Q;
  thresh_change_per_depth : Q
}.

Definition update_threshold_field (m : Model) : M World unit :=
  cum_ero ← field "cumulative_elevation_change";
  zs ← getarray (z m);
  initial ← field "initial_topographic__elevation";
  initials ← getarray initial;
  change ← lift_outcome (broadcast Qminus zs initials);
  setslice cum_ero change;;
  cs ← getarray cum_ero;
  setslice (threshold m)
    (map (λ c, threshold_value m - thresh_change_per_depth m * c)%Q cs);;
  ts ← getarray (threshold m);
  setmask_scalar (threshold m)
    (map (λ t, Qlt_bool t (threshold_value m)) ts) (threshold_value m).

Definition _pre_water_erosion_steps (m : Model) : M World unit :=
  update_threshold_field m.

End BasicDdSt.

(** ** [BasicDdVs]: the effective drainage area *)

Module BasicDdVs.

(** The attributes that [_calc_effective_drainage_area] reads. *)
Record Model : Type := mkModel {
  eff_area : loc;
  sat_param : Q
}.

(** [np_exp] stands for [np.exp], a function from floats to floats.  The
    quotient is the exact one of [Q]: a core node of area zero, where numpy
    divides by zero, is outside what the model covers. *)
Definition _calc_effective_drainage_area (np_exp : Q → Q) (m : Model) : M World unit :=
  area ← field "drainage_area";
  slope ← field "topographic__steepest_slope";
  cores ← gets (λ w, core_nodes (grid w));
  area_c ← getindices area cores;
  slope_c ← getindices slope cores;
  area_d ← getindices area cores;
  let exponent := zip_with Qdiv (map (Qmult (- sat_param m)) slope_c) area_d in
  setindices (eff_area m) cores (zip_with Qmult area_c (map np_exp exponent)).

End BasicDdVs.

(** ** Sample grids *)

(** [RasterModelGrid(5, 5)] with a field of zeros, all four edges closed
    and node 0 made the watershed outlet: status 4 on the perimeter, 1 at
    node 0, 0 in the core. *)
Definition raster5_status : list Z :=
  [1; 4; 4; 4; 4;
   4; 0; 0; 0; 4;
   4; 0; 0; 0; 4;
   4; 0; 0; 0; 4;
   4; 4; 4; 4; 4]%Z.

Definition raster5 : World :=
  mkWorld (mkGrid {[ "topographic__elevation" := 1%positive ]} raster5_status)
          {[ 1%positive := replicate 25 0%Q ]}
          ∅.

(** A two-row history file: the outlet drops by 10 over 10 time units. *)
Definition ramp : list (Q * Q) := [(0, 0); (10, -10)]%Q.

Definition raster5_with_ramp : World :=
  mkWorld (grid raster5) (arrays raster5) {[ "ramp.txt" := Table ramp ]}.

(** A history file whose changes do not start at 0: from 5 down to -5. *)
Definition offset_ramp : list (Q * Q) := [(0, 5); (10, -5)]%Q.

Definition raster5_with_offset_ramp : World :=
  mkWorld (grid raster5) (arrays raster5) {[ "offset.txt" := Table offset_ramp ]}.

(** The same grid with elevation 1 everywhere and a bedrock field of zeros
    in an array of its own. *)
Definition layered5 : World :=
  mkWorld (mkGrid {[ "topographic__elevation" := 1%positive;
                     "bedrock__elevation" := 2%positive ]} raster5_status)
          {[ 1%positive := replicate 25 1%Q; 2%positive := replicate 25 0%Q ]}
          {[ "ramp.txt" := Table ramp ]}.

(** A grid whose bedrock field is bound to the very array of its
    elevation field. *)
Definition aliased5 : World :=
  mkWorld (mkGrid {[ "topographic__elevation" := 1%positive;
                     "bedrock__elevation" := 1%positive ]} raster5_status)
          {[ 1%positive := replicate 25 0%Q ]}
          ∅.

(** A grid with no fields at all. *)
Definition bare5 : World := mkWorld (mkGrid ∅ raster5_status) ∅ ∅.

(** A 3 by 4 raster with two core nodes, 5 and 6: node 5 has been cut 2
    below its initial elevation, node 6 has been raised by 1. *)
Definition raster34_status : list Z :=
  [4; 4; 4; 4;
   4; 0; 0; 4;
   4; 4; 4; 4]%Z.

Definition eroded34 : World :=
  mkWorld
    (mkGrid {[ "topographic__elevation" := 1%positive;
               "initial_topographic__elevation" := 2%positive;
               "cumulative_elevation_change" := 3%positive;
               "water_erosion_rule__threshold" := 4%positive;
               "drainage_area" := 5%positive;
               "topographic__steepest_slope" := 6%positive;
               "effective_drainage_area" := 7%positive ]} raster34_status)
    {[ 1%positive := [0; 0; 0; 0; 0; -2; 1; 0; 0; 0; 0; 0]%Q;
       2%positive := replicate 12 0%Q;
       3%positive := replicate 12 0%Q;
       4%positive := replicate 12 0%Q;
       5%positive := [0; 0; 0; 0; 0; 100; 200; 0; 0; 0; 0; 0]%Q;
       6%positive := [0; 0; 0; 0; 0; 1 # 10; 0; 0; 0; 0; 0; 0]%Q;
       7%positive := replicate 12 0%Q ]}
    ∅.

(** A stand-in for [np.exp] with values in (0, 1] on the non-positive
    numbers. *)
Definition sample_exp (x : Q) : Q :=
  if Qle_bool x 0 then (1 / (1 - x))%Q else (1 + x)%Q.

(** ** Specification vocabulary *)

(** Weakest precondition of a statement: the postcondition holds of its
    outcome and final state, whether it returns or raises. *)
Definition wp {S A} (m : M S A) (Q : outcome A → S → Prop) (s : S) : Prop :=
  Q (m s).1 (m s).2.

(** [w'] differs from [w] at most in the entries [I] of the arrays [A]:
    same grid, same files, same array sizes. *)
Record touches (A : loc → Prop) (I : nat → Prop) (w w' : World) : Prop := mkTouches {
  touches_grid : grid w' = grid w;
  touches_files : files w' = files w;
  touches_length : ∀ a, length (array_of w' a) = length (array_of w a);
  touches_arrays : ∀ a, ¬ A a → arrays w' !! a = arrays w !! a;
  touches_entries : ∀ a i, ¬ I i → array_of w' a !! i = array_of w a !! i
}.

(** The array bound to the bedrock field, if the grid has one. *)
Definition bedrock (w : World) : option loc :=
  at_node (grid w) !! "bedrock__elevation".

(** The array bound to the elevation field. *)
Definition topography (w : World) : option loc :=
  at_node (grid w) !! "topographic__elevation".

(** Time values of a history table in strictly increasing order. *)
Fixpoint increasing (x0 : Q) (rest : list Q) : bool :=
  match rest with
  | [] => true
  | x1 :: rest' => negb (Qle_bool x1 x0) && increasing x1 rest'
  end.

Definition ascending (xs : list Q) : bool :=
  match xs with
  | [] => true
  | x0 :: rest => increasing x0 rest
  end.

(** The interpolant in the words of the specification: linear
    interpolation of the raw change values of the file, scaled, and offset
    by the start elevation. *)
Definition interpolant (start scaling_factor : Q) (rows : list (Q * Q)) (t : Q) : outcome Q :=
  match interp1d_call (interp1d rows.*1 rows.*2) t with
  | Return c => Return (start + scaling_factor * c)%Q
  | Raise e => Raise e
  end.

(** Scaling and offsetting an ordinate, and the ordinate of a knot. *)
Definition affine (k s y : Q) : Q := (k * y + s)%Q.
Definition lift_knot (k s : Q) (p : Q * Q) : Q * Q := (p.1, affine k s p.2).

(** The interpolant accepts [t]. *)
Definition defined_at (f : list (Q * Q)) (t : Q) : bool :=
  match interp1d_call f t with Return _ => true | Raise _ => false end.

(** Starting at elapsed time [t0], every step of [dts] begins at a time
    the interpolant accepts. *)
Fixpoint in_range (f : list (Q * Q)) (t0 : Q) (dts : list Q) : bool :=
  match dts with
  | [] => true
  | dt :: dts' => defined_at f t0 && in_range f (t0 + dt)%Q dts'
  end.

(** The amount that [a[mask] -= tc] takes from entry [i]. *)
Fixpoint delta_at (mask : list bool) (tc : list Q) (i : nat) : Q :=
  match mask, i with
  | [], _ => 0%Q
  | true :: _, O => hd 0%Q tc
  | false :: _, O => 0%Q
  | true :: mask', S i' => delta_at mask' (tl tc) i'
  | false :: mask', S i' => delta_at mask' tc i'
  end.

(** Starting at elapsed time [t0], every step of [dts] ends at a time the
    interpolant accepts. *)
Fixpoint in_range_after (f : list (Q * Q)) (t0 : Q) (dts : list Q) : bool :=
  match dts with
  | [] => true
  | dt :: dts' => defined_at f (t0 + dt)%Q && in_range_after f (t0 + dt)%Q dts'
  end.

(** Elapsed time after steps of the given lengths, starting from [t0]. *)
Definition elapsed (t0 : Q) (dts : list Q) : Q := foldl Qplus t0 dts.

(** The threshold that one node gets. *)
Definition floored (tv k d : Q) : Q :=
  if Qlt_bool (tv - k * d) tv then tv else (tv - k * d)%Q.

Module S := SingleNodeBaselevelHandler.
Module C := ClosedNodeBaselevelHandler.
Module D := BasicDdSt.
Module V := BasicDdVs.

#[local] Arguments Qplus : simpl never.
#[local] Arguments Qminus : simpl never.
#[local] Arguments Qmult : simpl never.
#[local] Arguments Qdiv : simpl never.
#[local] Arguments Qopp : simpl never.
#[local] Arguments Qabs : simpl never.
#[local] Arguments Qle_bool : simpl never.

(** ** Rules for the monad and the numpy primitives *)

Section wp_rules.
Context {S : Type}.

Lemma wp_ret {A} (a : A) (Q : outcome A → S → Prop) s :
  Q (Return a) s → wp (mret a) Q s.
Proof. done. Qed.

Lemma wp_raise {A} e (Q : outcome A → S → Prop) s :
  Q (Raise e) s → wp (raise e) Q s.
Proof. done. Qed.

Lemma wp_bind {A B} (m : M S A) (k : A → M S B) Q s :
  wp m (λ r s', match r with
                | Return a => wp (k a) Q s'
                | Raise e => Q (Raise e) s'
                end) s →
  wp (m ≫= k) Q s.
Proof. unfold wp, mbind, M_bind. by destruct (m s) as [[a|e] s']. Qed.

Lemma wp_gets {A} (f : S → A) Q s : Q (Return (f s)) s → wp (gets f) Q s.
Proof. done. Qed.

Lemma wp_modify (f : S → S) Q s : Q (Return tt) (f s) → wp (modify f) Q s.
Proof. done. Qed.

Lemma wp_lift_outcome {A} (o : outcome A) Q (s : S) :
  Q o s → wp (lift_outcome o) Q s.
Proof. done. Qed.

Lemma wp_from_option {A} e (o : option A) (Q : outcome A → S → Prop) s :
  match o with Some a => Q (Return a) s | None => Q (Raise e) s end →
  wp (from_option e o) Q s.
Proof. by destruct o. Qed.

Lemma wp_mono {A} (m : M S A) (Q Q' : outcome A → S → Prop) s :
  (∀ r s', Q r s' → Q' r s') → wp m Q s → wp m Q' s.
Proof. unfold wp. auto. Qed.
End wp_rules.

Lemma wp_in_world {H A} (m : M World A) (Q : outcome A → State H → Prop) s :
  wp m (λ r w, Q r (mkState (self s) w)) (world s) → wp (in_world m) Q s.
Proof. unfold wp, in_world. by destruct (m (world s)). Qed.

Lemma wp_field name (Q : outcome loc → World → Prop) w :
  match at_node (grid w) !! name with
  | Some a => Q (Return a) w
  | None => Q (Raise KeyError) w
  end → wp (field name) Q w.
Proof. unfold wp, field. by destruct (at_node (grid w) !! name). Qed.

Lemma wp_getitem a i (Q : outcome Q → World → Prop) w :
  match array_of w a !! i with
  | Some v => Q (Return v) w
  | None => Q (Raise IndexError) w
  end → wp (getitem a i) Q w.
Proof. unfold wp, getitem. by destruct (array_of w a !! i). Qed.

Lemma wp_setitem a i v (Q : outcome unit → World → Prop) w :
  match array_of w a !! i with
  | Some _ => Q (Return tt) (store a (<[i := v]> (array_of w a)) w)
  | None => Q (Raise IndexError) w
  end → wp (setitem a i v) Q w.
Proof.
  unfold wp, setitem. destruct (array_of w a !! i) eqn:E.
  - rewrite decide_True; [done|]. by eapply lookup_lt_Some.
  - rewrite decide_False; [done|]. apply lookup_ge_None_1 in E. lia.
Qed.

Lemma wp_has_field name (Q : outcome bool → World → Prop) w :
  match at_node (grid w) !! name with
  | Some _ => Q (Return true) w
  | None => Q (Return false) w
  end → wp (has_field name) Q w.
Proof. unfold wp, has_field, gets. simpl. by destruct (at_node (grid w) !! name). Qed.

Lemma wp_path_exists path (Q : outcome bool → World → Prop) w :
  match files w !! path with
  | Some _ => Q (Return true) w
  | None => Q (Return false) w
  end → wp (path_exists path) Q w.
Proof. unfold wp, path_exists, gets. simpl. by destruct (files w !! path). Qed.

Lemma wp_getmask a mask (Q : outcome (list Q) → World → Prop) w :
  (length mask = length (array_of w a) →
   Q (Return (select mask (array_of w a))) w) →
  (length mask ≠ length (array_of w a) → Q (Raise IndexError) w) →
  wp (getmask a mask) Q w.
Proof. unfold wp, getmask. case_decide; auto. Qed.

Lemma wp_setmask a mask vals (Q : outcome unit → World → Prop) w :
  (length mask = length (array_of w a) → length vals = count mask →
   Q (Return tt) (store a (assign mask vals (array_of w a)) w)) →
  (length mask = length (array_of w a) → length vals ≠ count mask →
   Q (Raise ValueError) w) →
  (length mask ≠ length (array_of w a) → Q (Raise IndexError) w) →
  wp (setmask a mask vals) Q w.
Proof. unfold wp, setmask. repeat case_decide; auto. Qed.

Lemma wp_loadtxt_columns path (Q : outcome (list Q * list Q) → World → Prop) w :
  match files w !! path with
  | Some (Table rows) =>
      if decide (2 ≤ length rows)%nat
      then Q (Return (rows.*1, rows.*2)) w
      else Q (Raise IndexError) w
  | Some Unparsable => Q (Raise ValueError) w
  | None => Q (Raise OSError) w
  end → wp (loadtxt_columns path) Q w.
Proof.
  unfold wp, loadtxt_columns.
  destruct (files w !! path) as [[rows|]|]; [by case_decide|done..].
Qed.

(** One step of symbolic execution. *)
Ltac wp_step :=
  lazymatch goal with
  | |- wp (_ ≫= _) _ _ => apply wp_bind
  | |- wp (mret _) _ _ => apply wp_ret
  | |- wp (raise _) _ _ => apply wp_raise
  | |- wp unbound_name _ _ => apply wp_raise
  | |- wp (gets _) _ _ => apply wp_gets
  | |- wp (has_field _) _ _ => apply wp_has_field
  | |- wp (path_exists _) _ _ => apply wp_path_exists
  | |- wp (modify _) _ _ => apply wp_modify
  | |- wp (lift_outcome _) _ _ => apply wp_lift_outcome
  | |- wp (from_option _ _) _ _ => apply wp_from_option
  | |- wp (in_world _) _ _ => apply wp_in_world
  | |- wp (field _) _ _ => apply wp_field
  | |- wp (getitem _ _) _ _ => apply wp_getitem
  | |- wp (setitem _ _ _) _ _ => apply wp_setitem
  | |- wp (getmask _ _) _ _ => apply wp_getmask; intros ?
  | |- wp (setmask _ _ _) _ _ =>
      apply wp_setmask; [intros ? ?|intros ? ?|intros ?]
  | |- wp (loadtxt_columns _) _ _ => apply wp_loadtxt_columns
  | |- wp (match ?x with _ => _ end) _ _ => destruct x eqn:?
  | |- match ?x with _ => _ end => destruct x eqn:?
  end; simpl.

Ltac wp_run := repeat wp_step.

(** From a proved [wp] back to the outcome of a run. *)
Lemma wp_elim {S A} (m : M S A) (Q : outcome A → S → Prop) s r s' :
  wp m Q s → m s = (r, s') → Q r s'.
Proof. unfold wp. intros HQ E. by rewrite E in HQ. Qed.

Lemma wp_outcome {S A} (m : M S A) s r s' :
  wp m (λ r0 s0, r0 = r ∧ s0 = s') s → m s = (r, s').
Proof. unfold wp. destruct (m s); simpl. by intros [-> ->]. Qed.

Lemma wp_returns {S} (m : M S unit) (P : S → Prop) s :
  wp m (λ r s', r = Return tt ∧ P s') s → ∃ s', m s = (Return tt, s') ∧ P s'.
Proof. unfold wp. destruct (m s) as [r s']; simpl. intros [-> HP]. eauto. Qed.

Ltac same_lhs :=
  repeat match goal with
         | H1 : ?x = _, H2 : ?x = _ |- _ => rewrite H1 in H2; simplify_eq
         end.

(** ** Arrays under [store] *)

Lemma array_of_store a l w a' :
  array_of (store a l w) a' = if decide (a = a') then l else array_of w a'.
Proof. unfold array_of, store; simpl. rewrite lookup_insert. by case_decide. Qed.

Lemma array_of_store_eq a l w : array_of (store a l w) a = l.
Proof. rewrite array_of_store. by case_decide. Qed.

Lemma array_of_store_ne a l w a' : a ≠ a' → array_of (store a l w) a' = array_of w a'.
Proof. intros. rewrite array_of_store. by case_decide. Qed.

(** Reading any entry after [a[i] = v]. *)
Lemma lookup_store_insert a i v w a' j :
  array_of (store a (<[i := v]> (array_of w a)) w) a' !! j
  = if decide (a = a' ∧ i = j) then const v <$> array_of w a !! i
    else array_of w a' !! j.
Proof.
  rewrite array_of_store. case_decide as Ha; subst.
  - rewrite list_lookup_insert. case_decide as Hi.
    + destruct Hi as [-> Hi]. rewrite decide_True by done.
      by apply lookup_lt_is_Some_2 in Hi as [x ->].
    + case_decide as Hj; [|done]. destruct Hj as [_ ->].
      destruct (array_of w a' !! j) eqn:E; [|done].
      apply lookup_lt_Some in E. tauto.
  - rewrite decide_False; [done|]. tauto.
Qed.

Ltac absurd_decide :=
  match goal with
  | H : ¬ (_ ∧ _) |- _ => exfalso; apply H; split; congruence
  end.

(** Normalise reads through a chain of single-entry writes. *)
Ltac arr :=
  rewrite ?lookup_store_insert in *;
  repeat (case_decide; destruct_and?; simplify_eq/=);
  try absurd_decide; simplify_option_eq; try done.

(** ** Mask indexing *)

Lemma length_assign mask vals l : length (assign mask vals l) = length l.
Proof.
  revert vals l. induction mask as [|[] mask IH]; intros vals [|v l]; simpl; try done.
  - destruct vals; simpl; by rewrite IH.
  - by rewrite IH.
Qed.

Lemma lookup_assign_other mask vals l i :
  mask !! i ≠ Some true → assign mask vals l !! i = l !! i.
Proof.
  revert vals l i. induction mask as [|b mask IH]; intros vals [|v l] i Hi; try done.
  - by destruct b.
  - destruct b, i as [|i]; simpl in *; try done.
    + destruct vals; simpl; by apply IH.
    + by apply IH.
Qed.

Lemma length_select mask l :
  length mask = length l → length (select mask l) = count mask.
Proof.
  revert l. induction mask as [|b mask IH]; intros [|v l] H; simpl in *; try done.
  injection H as H. destruct b; simpl; by rewrite IH.
Qed.

Lemma lookup_assign_sub mask tc l i v :
  l !! i = Some v →
  ∃ v', assign mask (zip_with Qminus (select mask l) tc) l !! i = Some v'
        ∧ (v' == v - delta_at mask tc i)%Q.
Proof.
  revert tc l i. induction mask as [|b mask IH]; intros tc l i Hi.
  - exists v. destruct l; simpl; split; try done; destruct i; lra.
  - destruct l as [|x l]; [done|]. destruct b.
    + destruct tc as [|t tc]; simpl.
      * destruct i as [|i]; simpl in *.
        -- exists v. split; [done|lra].
        -- destruct (IH [] l i Hi) as (v' & Hv' & Hq).
           rewrite zip_with_nil_r in Hv'. eauto.
      * destruct i as [|i]; simpl in *.
        -- injection Hi as ->. exists (v - t)%Q. split; [done|lra].
        -- by apply IH.
    + destruct i as [|i]; simpl in *.
      * exists v. split; [done|lra].
      * by apply IH.
Qed.

Lemma delta_at_select (g : Q → Q) mask l i v :
  mask !! i = Some true → l !! i = Some v →
  delta_at mask (map g (select mask l)) i = g v.
Proof.
  revert l i. induction mask as [|b mask IH]; intros [|x l] i Hm Hl; try done.
  destruct b, i as [|i]; simpl in *; try done.
  - by injection Hl as ->.
  - by apply IH.
  - by apply IH.
Qed.

(** ** The footprint relation *)

Lemma touches_refl A I w : touches A I w w.
Proof. by split. Qed.

Lemma touches_trans A I w1 w2 w3 :
  touches A I w1 w2 → touches A I w2 w3 → touches A I w1 w3.
Proof.
  intros H12 H23. split.
  - by rewrite (touches_grid _ _ _ _ H23), (touches_grid _ _ _ _ H12).
  - by rewrite (touches_files _ _ _ _ H23), (touches_files _ _ _ _ H12).
  - intros a. by rewrite (touches_length _ _ _ _ H23), (touches_length _ _ _ _ H12).
  - intros a Ha.
    by rewrite (touches_arrays _ _ _ _ H23 a Ha), (touches_arrays _ _ _ _ H12 a Ha).
  - intros a i Hi.
    by rewrite (touches_entries _ _ _ _ H23 a i Hi), (touches_entries _ _ _ _ H12 a i Hi).
Qed.

Lemma touches_store_insert (A : loc → Prop) (I : nat → Prop) a i v w :
  A a → I i → touches A I w (store a (<[i := v]> (array_of w a)) w).
Proof.
  intros HA HI. split; try done.
  - intros a'. rewrite array_of_store. case_decide; subst; [apply length_insert|done].
  - intros a' Ha'. simpl. apply lookup_insert_ne. by intros ->.
  - intros a' i' Hi'. rewrite array_of_store. case_decide; subst; [|done].
    apply list_lookup_insert_ne. by intros ->.
Qed.

Lemma touches_store_assign (A : loc → Prop) a mask vals w :
  A a → touches A (λ i, mask !! i = Some true) w
          (store a (assign mask vals (array_of w a)) w).
Proof.
  intros HA. split; try done.
  - intros a'. rewrite array_of_store. case_decide; subst; [apply length_assign|done].
  - intros a' Ha'. simpl. apply lookup_insert_ne. by intros ->.
  - intros a' i' Hi'. rewrite array_of_store. case_decide; subst; [|done].
    by apply lookup_assign_other.
Qed.

(** A world reached by a chain of writes is within the footprint when
    every write is. *)
Ltac touches_chain :=
  lazymatch goal with
  | |- touches _ _ ?w ?w => apply touches_refl
  | |- touches _ _ ?w (store _ _ ?w1) =>
      apply (touches_trans _ _ w w1);
      [touches_chain
      |first [apply touches_store_insert | apply touches_store_assign];
       unfold bedrock; auto]
  end.

(** ** The interpolant *)

Lemma last_cons {A} (x d : A) (l : list A) : List.last (x :: l) d = List.last l x.
Proof.
  revert x d. induction l as [|y l IH]; intros x d; [done|].
  change (List.last (x :: y :: l) d) with (List.last (y :: l) d).
  by rewrite !IH.
Qed.

Lemma sort_knots_cons p l : sort_knots (p :: l) = insert_knot p (sort_knots l).
Proof. done. Qed.

Section affine.
Variables k s : Q.

Lemma insert_knot_affine p l :
  insert_knot (lift_knot k s p) (lift_knot k s <$> l) = lift_knot k s <$> insert_knot p l.
Proof.
  induction l as [|p' l IH]; simpl; [done|].
  destruct (Qle_bool p.1 p'.1); simpl; [done|]. f_equal. apply IH.
Qed.

Lemma sort_knots_affine l :
  sort_knots (lift_knot k s <$> l) = lift_knot k s <$> sort_knots l.
Proof.
  induction l as [|p l IH]; [done|].
  rewrite fmap_cons, !sort_knots_cons, IH. apply insert_knot_affine.
Qed.

Lemma interp1d_affine (x y : list Q) :
  interp1d x (map (affine k s) y) = lift_knot k s <$> interp1d x y.
Proof.
  unfold interp1d. rewrite <- sort_knots_affine. f_equal.
  revert y. induction x as [|x0 x IH]; intros [|y0 y]; simpl; try done.
  by rewrite IH.
Qed.

Lemma np_interp_affine t x0 y0 rest :
  (np_interp t x0 (affine k s y0) (lift_knot k s <$> rest)
   == affine k s (np_interp t x0 y0 rest))%Q.
Proof.
  revert x0 y0. induction rest as [|[x1 y1] rest IH]; intros x0 y0; simpl.
  - reflexivity.
  - destruct (Qle_bool x1 t); [apply IH|].
    unfold affine, Qdiv. ring.
Qed.

Lemma interp1d_call_affine f t :
  match interp1d_call f t with
  | Return c =>
      ∃ v, interp1d_call (lift_knot k s <$> f) t = Return v ∧ (v == affine k s c)%Q
  | Raise e => interp1d_call (lift_knot k s <$> f) t = Raise e
  end.
Proof.
  destruct f as [|[x0 y0] rest]; [done|].
  change (interp1d_call (lift_knot k s <$> (x0, y0) :: rest) t)
    with (if Qle_bool x0 t && Qle_bool t (List.last (lift_knot k s <$> rest).*1 x0)
          then Return (np_interp t x0 (affine k s y0) (lift_knot k s <$> rest))
          else Raise ValueError).
  assert ((lift_knot k s <$> rest).*1 = rest.*1) as ->
    by by rewrite <- list_fmap_compose.
  unfold interp1d_call.
  destruct (Qle_bool x0 t && Qle_bool t (List.last rest.*1 x0)); [|done].
  eexists. split; [done|]. apply np_interp_affine.
Qed.
End affine.

Lemma defined_at_affine k s f t : defined_at (lift_knot k s <$> f) t = defined_at f t.
Proof.
  unfold defined_at. pose proof (interp1d_call_affine k s f t) as H.
  destruct (interp1d_call f t); [by destruct H as (v & -> & _)|by rewrite H].
Qed.

Lemma in_range_affine k s f t dts :
  in_range (lift_knot k s <$> f) t dts = in_range f t dts.
Proof.
  revert t. induction dts as [|dt dts IH]; intros t; simpl; [done|].
  by rewrite IH, defined_at_affine.
Qed.

Lemma increasing_head x0 x1 rest :
  increasing x0 (x1 :: rest) = true → (x0 < x1)%Q ∧ increasing x1 rest = true.
Proof.
  simpl. intros [H1 H2]%andb_true_iff. split; [|done].
  apply negb_true_iff in H1. apply Qnot_le_lt. intros Hle.
  apply Qle_bool_iff in Hle. congruence.
Qed.

Lemma increasing_last x0 rest :
  increasing x0 rest = true → (x0 <= List.last rest x0)%Q.
Proof.
  revert x0. induction rest as [|x1 rest IH]; intros x0 H.
  - apply Qle_refl.
  - apply increasing_head in H as [Hlt H]. rewrite last_cons.
    eapply Qle_trans; [by apply Qlt_le_weak|by apply IH].
Qed.

Lemma sort_knots_increasing (p : Q * Q) (l : list (Q * Q)) :
  increasing p.1 l.*1 = true → sort_knots (p :: l) = p :: l.
Proof.
  revert p. induction l as [|p' l IH]; intros p H; [done|].
  rewrite fmap_cons in H. apply increasing_head in H as [Hlt H].
  rewrite sort_knots_cons, (IH p' H). simpl.
  apply Qlt_le_weak, Qle_bool_iff in Hlt. by rewrite Hlt.
Qed.

(** At the last time of an increasing table the interpolant takes the
    last ordinate. *)
Lemma np_interp_last t x0 y0 rest :
  increasing x0 rest.*1 = true → (t == List.last rest.*1 x0)%Q →
  np_interp t x0 y0 rest = List.last rest.*2 y0.
Proof.
  revert x0 y0. induction rest as [|[x1 y1] rest IH]; intros x0 y0 H Ht; [done|].
  rewrite fmap_cons in H. apply increasing_head in H as [Hlt H].
  rewrite !fmap_cons, !last_cons in *. simpl in *.
  assert (Qle_bool x1 t = true) as ->.
  { apply Qle_bool_iff. rewrite Ht. by apply increasing_last. }
  by apply IH.
Qed.

Lemma interp1d_ascending (rows : list (Q * Q)) :
  ascending rows.*1 = true → interp1d rows.*1 rows.*2 = rows.
Proof.
  intros H. unfold interp1d. rewrite zip_fst_snd.
  destruct rows as [|p rest]; [done|]. by apply sort_knots_increasing.
Qed.

(** On an ascending table the interpolant at the last time is the last
    change. *)
Lemma interp1d_call_last (rows : list (Q * Q)) (t : Q) :
  rows ≠ [] → ascending rows.*1 = true → (t == List.last rows.*1 0%Q)%Q →
  interp1d_call rows t = Return (List.last rows.*2 0%Q).
Proof.
  destruct rows as [|[x0 y0] rest]; [done|]. intros _ Hasc Ht.
  rewrite !fmap_cons, !last_cons in *. simpl in Hasc, Ht. unfold interp1d_call.
  assert (Qle_bool x0 t = true) as ->.
  { apply Qle_bool_iff. rewrite Ht. by apply increasing_last. }
  assert (Qle_bool t (List.last rest.*1 x0) = true) as ->.
  { apply Qle_bool_iff. rewrite Ht. apply Qle_refl. }
  simpl. f_equal. by apply np_interp_last.
Qed.

(** The scaling factor makes the scaled table end at the end elevation
    when the table starts at 0 and moves towards it. *)
Lemma rescale_hits_end (start e c0 cl : Q) :
  (c0 == 0)%Q → ¬ (cl == 0)%Q → (0 <= (e - start) * cl)%Q →
  (Qabs (start - e) / Qabs (c0 - cl) * cl + start == e)%Q.
Proof.
  intros Hc0 Hcl Hdir.
  destruct (Q_dec cl 0) as [[Hneg|Hpos]|Hz]; [| |done].
  - assert (e - start <= 0)%Q as Hle by nra.
    rewrite (Qabs_pos (start - e)) by lra.
    rewrite (Qabs_pos (c0 - cl)) by lra.
    rewrite Hc0. field. lra.
  - assert (0 <= e - start)%Q as Hle by nra.
    rewrite (Qabs_neg (start - e)) by lra.
    rewrite (Qabs_neg (c0 - cl)) by lra.
    rewrite Hc0. field. lra.
Qed.

(** ** Runs of several steps *)

Lemma run_steps_cons {S} (step : Q → M S unit) dt dts s s1 :
  step dt s = (Return tt, s1) → run_steps step (dt :: dts) s = run_steps step dts s1.
Proof. intros H. simpl. unfold mbind, M_bind. by rewrite H. Qed.

Lemma run_steps_app {S} (step : Q → M S unit) dts1 dts2 s s1 :
  run_steps step dts1 s = (Return tt, s1) →
  run_steps step (dts1 ++ dts2) s = run_steps step dts2 s1.
Proof.
  revert s. induction dts1 as [|dt dts1 IH]; intros s H; simpl in *.
  - by injection H as ->.
  - unfold mbind, M_bind in *. destruct (step dt s) as [[[]|e] s']; [|done].
    by apply IH.
Qed.

Lemma elapsed_app t dts1 dts2 : elapsed t (dts1 ++ dts2) = elapsed (elapsed t dts1) dts2.
Proof. unfold elapsed. apply foldl_app. Qed.

Lemma in_range_app f t dts1 dts2 :
  in_range f t (dts1 ++ dts2) = in_range f t dts1 && in_range f (elapsed t dts1) dts2.
Proof.
  revert t. induction dts1 as [|dt dts1 IH]; intros t; simpl; [done|].
  by rewrite IH, andb_assoc.
Qed.

(** ** The constructors *)

(** The constructors only read the world. *)
Lemma S_init_reads o rate path mee w : (S.__init__ o rate path mee w).2 = w.
Proof.
  change (wp (S.__init__ o rate path mee) (λ _ w', w' = w) w).
  unfold S.__init__. wp_run; done.
Qed.

Lemma C_init_reads b rate path mee w : (C.__init__ b rate path mee w).2 = w.
Proof.
  change (wp (C.__init__ b rate path mee) (λ _ w', w' = w) w).
  unfold C.__init__. wp_run; done.
Qed.

(** [self.z] is the array of the grid's elevation field. *)
Lemma S_init_attached o rate path mee w h w' :
  S.__init__ o rate path mee w = (Return h, w') →
  w' = w ∧ topography w = Some (S.z h) ∧ S.outlet_node h = o
  ∧ S.model_time h = 0%Q.
Proof.
  assert (wp (S.__init__ o rate path mee)
            (λ r w', ∀ h, r = Return h →
               w' = w ∧ topography w = Some (S.z h) ∧ S.outlet_node h = o
               ∧ S.model_time h = 0%Q) w) as Hwp.
  { unfold S.__init__, topography. wp_run; intros ? ?; by simplify_eq. }
  intros E. unfold wp in Hwp. rewrite E in Hwp. by apply Hwp.
Qed.

Lemma C_init_attached b rate path mee w h w' :
  C.__init__ b rate path mee w = (Return h, w') →
  w' = w ∧ topography w = Some (C.z h) ∧ C.modify_closed_nodes h = b
  ∧ C.model_time h = 0%Q.
Proof.
  assert (wp (C.__init__ b rate path mee)
            (λ r w', ∀ h, r = Return h →
               w' = w ∧ topography w = Some (C.z h) ∧ C.modify_closed_nodes h = b
               ∧ C.model_time h = 0%Q) w) as Hwp.
  { unfold C.__init__, topography. wp_run; intros ? ?; by simplify_eq. }
  intros E. unfold wp in Hwp. rewrite E in Hwp. by apply Hwp.
Qed.

(** The single-node constructor in history mode, on a readable table. *)
Lemma S_init_history (w : World) (a : loc) (outlet_node : nat) (path : string)
    (rows : list (Q * Q)) (start : Q) (model_end_elevation : option Q) :
  topography w = Some a →
  array_of w a !! outlet_node = Some start →
  files w !! path = Some (Table rows) →
  (2 ≤ length rows)%nat →
  S.__init__ outlet_node None (Some path) model_end_elevation w
  = (Return (S.mkHandler 0 outlet_node a None
       (Some (lift_knot
                match model_end_elevation with
                | None => 1%Q
                | Some e => (Qabs (start - e)
                             / Qabs (hd 0 rows.*2 - List.last rows.*2 0))%Q
                end start <$> interp1d rows.*1 rows.*2))), w).
Proof.
  intros Htopo Hz Hfile Hrows. apply wp_outcome.
  unfold S.__init__, topography in *. wp_run; simplify_eq; try done.
  split; [|done]. do 3 f_equal. apply interp1d_affine.
Qed.

(** C2: constructing either handler with both a lowering rate and a
    lowering file, or with neither, raises (ValueError; KeyError when the
    grid has no elevation field at all), and the world, elevation fields
    included, is exactly as before the call. *)
Theorem init_rejects_both_and_neither
    (w : World) (outlet_node : nat) (modify_closed_nodes : bool)
    (rate : Q) (path : string) (model_end_elevation : option Q) :
  let e := match topography w with Some _ => ValueError | None => KeyError end in
  S.__init__ outlet_node (Some rate) (Some path) model_end_elevation w = (Raise e, w)
  ∧ S.__init__ outlet_node None None model_end_elevation w = (Raise e, w)
  ∧ C.__init__ modify_closed_nodes (Some rate) (Some path) model_end_elevation w
    = (Raise e, w)
  ∧ C.__init__ modify_closed_nodes None None model_end_elevation w = (Raise e, w).
Proof.
  unfold S.__init__, C.__init__, topography, mbind, M_bind, field, gets, raise.
  simpl. by destruct (at_node (grid w) !! "topographic__elevation").
Qed.

(** C7: with no lowering rate and a path that does not lead to a readable
    table, both constructors raise and leave the world as it was; when the
    path does not exist at all the error is the ValueError of the
    [os.path.exists] test. *)
Theorem init_rejects_unreadable_file
    (w : World) (outlet_node : nat) (modify_closed_nodes : bool)
    (path : string) (model_end_elevation : option Q) :
  (∀ rows, files w !! path ≠ Some (Table rows)) →
  (∃ e, S.__init__ outlet_node None (Some path) model_end_elevation w = (Raise e, w)
        ∧ (files w !! path = None → is_Some (topography w) → e = ValueError))
  ∧ (∃ e, C.__init__ modify_closed_nodes None (Some path) model_end_elevation w
          = (Raise e, w)
          ∧ (files w !! path = None → is_Some (topography w) → e = ValueError)).
Proof.
  intros Hfile.
  assert (∀ A (m : M World A) (P : exn → Prop),
    wp m (λ r w', ∃ e, r = Raise e ∧ w' = w ∧ P e) w →
    ∃ e, m w = (Raise e, w) ∧ P e) as Hwp.
  { intros A m P. unfold wp. destruct (m w) as [r w']; simpl.
    intros (e & -> & -> & HP). eauto. }
  split; apply Hwp; unfold S.__init__, C.__init__, topography; wp_run.
  all: try (simplify_eq; exfalso; eapply Hfile; first [eassumption | reflexivity]).
  all: eexists; split_and!; [reflexivity..|]; intros Hnone [? ?]; by simplify_eq.
Qed.

Lemma init_rejects_unreadable_file_witness :
  (∀ rows, files raster5 !! "foo.txt" ≠ Some (Table rows))
  ∧ (∃ e, S.__init__ 0 None (Some "foo.txt") None raster5 = (Raise e, raster5)
          ∧ (files raster5 !! "foo.txt" = None → is_Some (topography raster5) →
             e = ValueError))
  ∧ (∃ e, C.__init__ false None (Some "foo.txt") None raster5 = (Raise e, raster5)
          ∧ (files raster5 !! "foo.txt" = None → is_Some (topography raster5) →
             e = ValueError)).
Proof.
  assert (∀ rows, files raster5 !! "foo.txt" ≠ Some (Table rows)) as H
    by (intros rows; vm_compute; discriminate).
  split; [exact H|].
  exact (init_rejects_unreadable_file raster5 0 false "foo.txt" None H).
Defined.

(** C6: on a grid with an elevation field and a readable history file,
    the multi-node constructor called without [model_end_elevation] does not
    return a handler: it raises UnboundLocalError, because
    [model_start_elevation] is assigned only in the branch that has an end
    elevation and is read afterwards in both. *)
Theorem closed_init_history_without_end_elevation
    (w : World) (modify_closed_nodes : bool) (path : string) (rows : list (Q * Q)) :
  is_Some (topography w) →
  files w !! path = Some (Table rows) →
  (2 ≤ length rows)%nat →
  C.__init__ modify_closed_nodes None (Some path) None w = (Raise UnboundLocalError, w).
Proof.
  intros [a Ha] Hfile Hrows. apply wp_outcome.
  unfold C.__init__, topography in *. wp_run; by simplify_eq.
Qed.

Lemma closed_init_history_without_end_elevation_witness :
  C.__init__ false None (Some "ramp.txt") None raster5_with_ramp
  = (Raise UnboundLocalError, raster5_with_ramp).
Proof.
  apply (closed_init_history_without_end_elevation raster5_with_ramp false
           "ramp.txt" ramp).
  - vm_compute. eauto.
  - reflexivity.
  - simpl. lia.
Defined.

(** The single-node constructor, on the same input, returns a handler. *)
Example single_init_history_without_end_elevation :
  ∃ h, S.__init__ 0 None (Some "ramp.txt") None raster5_with_ramp
       = (Return h, raster5_with_ramp).
Proof. eexists. vm_compute. reflexivity. Qed.

(** ** [SingleNodeBaselevelHandler.run_one_step] *)

(** What every call preserves, whether it returns or raises: the
    footprint, the handler's configuration, and the clock, which moves only
    when the call returns. *)
Lemma S_step_invariant dt (s : State S.Handler) :
  wp (S.run_one_step dt)
     (λ r s',
        touches (λ a, a = S.z (self s) ∨ bedrock (world s) = Some a)
                (λ i, i = S.outlet_node (self s)) (world s) (world s')
        ∧ S.outlet_node (self s') = S.outlet_node (self s)
        ∧ S.z (self s') = S.z (self s)
        ∧ S.lowering_rate (self s') = S.lowering_rate (self s)
        ∧ S.outlet_elevation_obj (self s') = S.outlet_elevation_obj (self s)
        ∧ S.model_time (self s')
          = match r with
            | Return _ => (S.model_time (self s) + dt)%Q
            | Raise _ => S.model_time (self s)
            end) s.
Proof.
  destruct s as [h w]. unfold S.run_one_step. wp_run.
  all: split_and!; try done; touches_chain.
Qed.

Lemma S_step_offset (dt : Q) (s : State S.Handler) (b : loc) (zv bv : Q) :
  bedrock (world s) = Some b →
  array_of (world s) (S.z (self s)) !! S.outlet_node (self s) = Some zv →
  array_of (world s) b !! S.outlet_node (self s) = Some bv →
  wp (S.run_one_step dt)
     (λ _ s', ∃ zv' bv',
        array_of (world s') (S.z (self s)) !! S.outlet_node (self s) = Some zv'
        ∧ array_of (world s') b !! S.outlet_node (self s) = Some bv'
        ∧ (zv' - zv == bv' - bv)%Q) s.
Proof.
  destruct s as [h w]. simpl. unfold bedrock. intros Hb Hz Hbv.
  unfold S.run_one_step. wp_run; simplify_eq/=; same_lhs.
  all: arr.
  all: try (eexists _, _; split_and!; [done..|lra]).
Qed.

(** A constant-rate step on a handler whose outlet entry exists, in the
    elevation array and in a separate bedrock array if there is one. *)
Lemma S_constant_step (h : S.Handler) (w : World) (dt rate zv : Q) :
  S.outlet_elevation_obj h = None →
  S.lowering_rate h = Some rate →
  array_of w (S.z h) !! S.outlet_node h = Some zv →
  (∀ b, bedrock w = Some b →
        b ≠ S.z h ∧ is_Some (array_of w b !! S.outlet_node h)) →
  ∃ s', S.run_one_step dt (mkState h w) = (Return tt, s')
        ∧ (self s' = S.advance_time dt h
           ∧ grid (world s') = grid w
           ∧ array_of (world s') (S.z h) !! S.outlet_node h
             = Some (zv + rate * dt)%Q
           ∧ (∀ b bv, bedrock w = Some b →
                array_of w b !! S.outlet_node h = Some bv →
                array_of (world s') b !! S.outlet_node h
                = Some (bv + rate * dt)%Q)).
Proof.
  intros Hobj Hrate Hz Hbed. apply wp_returns.
  unfold S.run_one_step, bedrock in *.
  wp_run; rewrite ?Hobj, ?Hrate in *; simplify_eq/=.
  all: try (edestruct Hbed as [Hne [bv0 Hbv0]]; [first [eassumption|reflexivity]|]).
  all: split_and!; intros; arr.
Qed.

Lemma S_constant_steps (rate : Q) (dts : list Q) : ∀ (h : S.Handler) (w : World) (zv : Q),
  S.outlet_elevation_obj h = None →
  S.lowering_rate h = Some rate →
  array_of w (S.z h) !! S.outlet_node h = Some zv →
  (∀ b, bedrock w = Some b →
        b ≠ S.z h ∧ is_Some (array_of w b !! S.outlet_node h)) →
  ∃ s z1, run_steps S.run_one_step dts (mkState h w) = (Return tt, s)
    ∧ S.model_time (self s) = elapsed (S.model_time h) dts
    ∧ array_of (world s) (S.z h) !! S.outlet_node h = Some z1
    ∧ (z1 - zv == rate * (elapsed (S.model_time h) dts - S.model_time h))%Q
    ∧ (∀ b b0, bedrock w = Some b → array_of w b !! S.outlet_node h = Some b0 →
         ∃ b1, array_of (world s) b !! S.outlet_node h = Some b1
               ∧ (b1 - b0 == rate * (elapsed (S.model_time h) dts - S.model_time h))%Q).
Proof.
  induction dts as [|dt dts IH]; intros h w zv Hobj Hrate Hz Hbed.
  - exists (mkState h w), zv. simpl. split_and!; try done.
    + lra.
    + intros b b0 _ Hb. exists b0. split; [done|lra].
  - destruct (S_constant_step h w dt rate zv Hobj Hrate Hz Hbed)
      as ([h1 w1] & Hstep & Hself & Hgrid & Hz1 & Hb1).
    simpl in Hself, Hgrid, Hz1, Hb1. subst h1.
    destruct (IH (S.advance_time dt h) w1 (zv + rate * dt)%Q)
      as (s & z1 & Hrun & Ht & Hzs & Hzq & Hbs); try done.
    { intros b Hb. unfold bedrock in *. rewrite Hgrid in Hb.
      destruct (Hbed b Hb) as [Hne [bv Hbv]]. simpl. split; [done|].
      rewrite (Hb1 b bv Hb Hbv). eauto. }
    exists s, z1. rewrite (run_steps_cons _ _ _ _ _ Hstep).
    simpl in Ht, Hzs, Hzq, Hbs. simpl elapsed.
    split_and!; try done.
    + lra.
    + intros b b0 Hb Hb0. destruct (Hbs b (b0 + rate * dt)%Q) as (b1 & Hb1' & Hbq).
      { unfold bedrock in *. by rewrite Hgrid. }
      { by apply Hb1. }
      exists b1. split; [done|]. lra.
Qed.

Lemma S_history_step (h : S.Handler) (w : World) (dt zv target : Q) f :
  S.outlet_elevation_obj h = Some f →
  array_of w (S.z h) !! S.outlet_node h = Some zv →
  interp1d_call f (S.model_time h) = Return target →
  (∀ b, bedrock w = Some b →
        b ≠ S.z h ∧ is_Some (array_of w b !! S.outlet_node h)) →
  ∃ s', S.run_one_step dt (mkState h w) = (Return tt, s')
        ∧ (self s' = S.advance_time dt h
           ∧ grid (world s') = grid w
           ∧ array_of (world s') (S.z h) !! S.outlet_node h
             = Some (zv - (zv - target))%Q
           ∧ (∀ b bv, bedrock w = Some b →
                array_of w b !! S.outlet_node h = Some bv →
                array_of (world s') b !! S.outlet_node h
                = Some (bv - (zv - target))%Q)).
Proof.
  intros Hobj Hz Hf Hbed. apply wp_returns.
  unfold S.run_one_step, bedrock in *.
  wp_run; rewrite ?Hobj in *; simplify_eq/=; same_lhs.
  all: try (edestruct Hbed as [Hne [bv0 Hbv0]]; [first [eassumption|reflexivity]|]).
  all: split_and!; intros; arr.
Qed.

Lemma S_history_steps f dts : ∀ (h : S.Handler) (w : World),
  S.outlet_elevation_obj h = Some f →
  is_Some (array_of w (S.z h) !! S.outlet_node h) →
  (∀ b, bedrock w = Some b →
        b ≠ S.z h ∧ is_Some (array_of w b !! S.outlet_node h)) →
  in_range f (S.model_time h) dts = true →
  ∃ s, run_steps S.run_one_step dts (mkState h w) = (Return tt, s)
       ∧ self s = S.mkHandler (elapsed (S.model_time h) dts) (S.outlet_node h)
                    (S.z h) (S.lowering_rate h) (S.outlet_elevation_obj h)
       ∧ grid (world s) = grid w
       ∧ is_Some (array_of (world s) (S.z h) !! S.outlet_node h)
       ∧ (∀ b, bedrock w = Some b →
             is_Some (array_of (world s) b !! S.outlet_node h)).
Proof.
  induction dts as [|dt dts IH]; intros h w Hobj Hz Hbed Hin.
  - exists (mkState h w). split_and!; try done; [by destruct h|]. 
    intros b Hb. by apply Hbed.
  - simpl in Hin. apply andb_true_iff in Hin as [Hdef Hin].
    unfold defined_at in Hdef.
    destruct (interp1d_call f (S.model_time h)) as [target|] eqn:Hf; [|done].
    destruct Hz as [zv Hz].
    destruct (S_history_step h w dt zv target f Hobj Hz Hf Hbed)
      as ([h1 w1] & Hstep & Hself & Hgrid & Hz1 & Hb1).
    simpl in Hself, Hgrid, Hz1, Hb1. subst h1.
    assert (∀ b, bedrock w1 = Some b →
              b ≠ S.z h ∧ is_Some (array_of w1 b !! S.outlet_node h)) as Hbed1.
    { intros b Hb. unfold bedrock in *. rewrite Hgrid in Hb.
      destruct (Hbed b Hb) as [Hne [bv Hbv]]. split; [done|].
      rewrite (Hb1 b bv Hb Hbv). eauto. }
    destruct (IH (S.advance_time dt h) w1 Hobj (mk_is_Some _ _ Hz1) Hbed1 Hin)
      as (s & Hrun & Hs & Hg & Hzs & Hbs).
    exists s. rewrite (run_steps_cons _ _ _ _ _ Hstep).
    split_and!; try done.
    + by rewrite Hg.
    + intros b Hb. apply Hbs. unfold bedrock in *. by rewrite Hgrid.
Qed.

Lemma S_history_value (dt : Q) (s : State S.Handler) f :
  S.outlet_elevation_obj (self s) = Some f →
  bedrock (world s) ≠ Some (S.z (self s)) →
  wp (S.run_one_step dt)
     (λ r s', r = Return tt →
        ∃ zv' target,
          interp1d_call f (S.model_time (self s)) = Return target
          ∧ array_of (world s') (S.z (self s)) !! S.outlet_node (self s) = Some zv'
          ∧ (zv' == target)%Q) s.
Proof.
  destruct s as [h w]. simpl. unfold bedrock. intros Hobj Hb.
  unfold S.run_one_step. wp_run; simplify_eq/=; same_lhs; try done.
  all: arr.
  all: eexists _, _; split_and!; [done..|lra].
Qed.

(** C3: a single-node handler built with a constant [rate], run for steps
    of lengths [dts], returns from every step; afterwards its clock reads
    the total time [elapsed 0 dts], the outlet elevation is its initial
    value plus [rate] times that total, and a bedrock field (an array of
    its own holding the outlet node) has received the same total at the
    outlet.  With rate -1/10 and one step of 10 the outlet drops by 1. *)
Theorem single_constant_rate_total
    (w : World) (a : loc) (outlet_node : nat) (rate z0 : Q)
    (model_end_elevation : option Q) (dts : list Q) :
  topography w = Some a →
  array_of w a !! outlet_node = Some z0 →
  (∀ b, bedrock w = Some b → b ≠ a ∧ is_Some (array_of w b !! outlet_node)) →
  ∃ h s z1,
    S.__init__ outlet_node (Some rate) None model_end_elevation w = (Return h, w)
    ∧ run_steps S.run_one_step dts (mkState h w) = (Return tt, s)
    ∧ S.model_time (self s) = elapsed 0 dts
    ∧ array_of (world s) a !! outlet_node = Some z1
    ∧ (z1 == z0 + rate * elapsed 0 dts)%Q
    ∧ (rate = (-1 # 10)%Q → dts = [10%Q] → (z1 == z0 - 1)%Q)
    ∧ (∀ b b0, bedrock w = Some b → array_of w b !! outlet_node = Some b0 →
         ∃ b1, array_of (world s) b !! outlet_node = Some b1
               ∧ (b1 == b0 + rate * elapsed 0 dts)%Q).
Proof.
  intros Htopo Hz Hbed.
  set (h := S.mkHandler 0 outlet_node a (Some rate) None).
  destruct (S_constant_steps rate dts h w z0) as (s & z1 & Hrun & Ht & Hz1 & Hq & Hb);
    try done.
  exists h, s, z1. simpl in Ht, Hz1, Hq, Hb. split_and!; try done.
  - unfold S.__init__, topography, mbind, M_bind, field in *. simpl.
    by rewrite Htopo.
  - lra.
  - intros -> ->. unfold elapsed in Hq. simpl in Hq. lra.
  - intros b b0 Hb0 Hb0'. destruct (Hb b b0 Hb0 Hb0') as (b1 & ? & ?).
    exists b1. split; [done|lra].
Qed.

Lemma single_constant_rate_total_witness :
  ∃ h s z1,
    S.__init__ 7 (Some (-1 # 10)%Q) None None layered5 = (Return h, layered5)
    ∧ run_steps S.run_one_step [10%Q] (mkState h layered5) = (Return tt, s)
    ∧ S.model_time (self s) = elapsed 0 [10%Q]
    ∧ array_of (world s) 1%positive !! 7 = Some z1
    ∧ (z1 == 1 + (-1 # 10) * elapsed 0 [10%Q])%Q
    ∧ ((-1 # 10)%Q = (-1 # 10)%Q → [10%Q] = [10%Q] → (z1 == 1 - 1)%Q)
    ∧ (∀ b b0, bedrock layered5 = Some b → array_of layered5 b !! 7 = Some b0 →
         ∃ b1, array_of (world s) b !! 7 = Some b1
               ∧ (b1 == b0 + (-1 # 10) * elapsed 0 [10%Q])%Q).
Proof.
  apply (single_constant_rate_total layered5 1%positive 7 (-1 # 10)%Q 1%Q None [10%Q]).
  - reflexivity.
  - reflexivity.
  - intros b Hb. vm_compute in Hb. injection Hb as <-. split; [discriminate|].
    vm_compute. eauto.
Defined.

(** Why the bedrock array has to be another array than the elevation
    array: bound to the same array, the outlet drops twice per step. *)
Example aliased_bedrock_lowers_twice :
  ∃ h s,
    S.__init__ 0 (Some (-1 # 10)%Q) None None aliased5 = (Return h, aliased5)
    ∧ S.run_one_step 10 (mkState h aliased5) = (Return tt, s)
    ∧ ∃ z1, array_of (world s) 1%positive !! 0%nat = Some z1 ∧ (z1 == -2)%Q.
Proof.
  eexists _, _. split_and!; [vm_compute; reflexivity..|].
  eexists. split; vm_compute; reflexivity.
Qed.

(** C4 (as the code has it): in history mode without rescaling, every
    step that starts at an elapsed time inside the table returns, and it
    moves the outlet by [delta = current elevation - f(t_before)], the
    interpolant taken at the elapsed time the step starts from.  So when the
    clock has reached [t_before + dt], the outlet elevation is the
    interpolant of the raw changes, offset by the initial elevation, at
    [t_before]. *)
Theorem single_history_step_lags
    (w : World) (a : loc) (outlet_node : nat) (path : string)
    (rows : list (Q * Q)) (start : Q) (dts : list Q) (dt : Q) :
  topography w = Some a →
  array_of w a !! outlet_node = Some start →
  files w !! path = Some (Table rows) →
  (2 ≤ length rows)%nat →
  (∀ b, bedrock w = Some b → b ≠ a ∧ is_Some (array_of w b !! outlet_node)) →
  in_range (interp1d rows.*1 rows.*2) 0 (dts ++ [dt]) = true →
  ∃ h s0 s z0 z1 target,
    S.__init__ outlet_node None (Some path) None w = (Return h, w)
    ∧ run_steps S.run_one_step dts (mkState h w) = (Return tt, s0)
    ∧ S.model_time (self s0) = elapsed 0 dts
    ∧ array_of (world s0) a !! outlet_node = Some z0
    ∧ S.run_one_step dt s0 = (Return tt, s)
    ∧ S.model_time (self s) = (elapsed 0 dts + dt)%Q
    ∧ array_of (world s) a !! outlet_node = Some z1
    ∧ interpolant start 1 rows (elapsed 0 dts) = Return target
    ∧ (z1 == z0 - (z0 - target))%Q
    ∧ (z1 == target)%Q.
Proof.
  intros Htopo Hz Hfile Hrows Hbed Hin.
  pose proof (S_init_history w a outlet_node path rows start None
                Htopo Hz Hfile Hrows) as Hinit.
  set (f := lift_knot 1 start <$> interp1d rows.*1 rows.*2) in *.
  set (h := S.mkHandler 0 outlet_node a None (Some f)) in *.
  rewrite <- (in_range_affine 1 start), in_range_app in Hin. fold f in Hin.
  apply andb_true_iff in Hin as [Hin Hlast]. simpl in Hlast.
  rewrite andb_true_r in Hlast.
  destruct (S_history_steps f dts h w eq_refl (mk_is_Some _ _ Hz) Hbed Hin)
    as ([h0 w0] & Hrun & Hself & Hgrid & [z0 Hz0] & Hb0).
  simpl in Hself, Hgrid, Hz0, Hb0. subst h0.
  unfold defined_at, f in Hlast.
  pose proof (interp1d_call_affine 1 start (interp1d rows.*1 rows.*2)
                (elapsed 0 dts)) as Haff.
  destruct (interp1d_call (interp1d rows.*1 rows.*2) (elapsed 0 dts))
    as [c|] eqn:Hc; [|by rewrite Haff in Hlast].
  destruct Haff as (v & Hv & Hvc). fold f in Hv.
  set (h0 := S.mkHandler (elapsed 0 dts) outlet_node a None (Some f)) in *.
  destruct (S_history_step h0 w0 dt z0 v f eq_refl Hz0 Hv)
    as (s & Hstep & Hs & _ & Hz1 & _).
  { intros b Hb. unfold bedrock in *. rewrite Hgrid in Hb.
    split; [by apply Hbed|by apply Hb0]. }
  simpl in Hs, Hz1.
  exists h, (mkState h0 w0), s, z0, (z0 - (z0 - v))%Q, (start + 1 * c)%Q.
  split_and!; try done.
  - by rewrite Hs.
  - unfold interpolant. by rewrite Hc.
  - unfold affine in Hvc. lra.
  - unfold affine in Hvc. lra.
Qed.

Lemma single_history_step_lags_witness :
  ∃ h s0 s z0 z1 target,
    S.__init__ 7 None (Some "ramp.txt") None layered5 = (Return h, layered5)
    ∧ run_steps S.run_one_step [5%Q] (mkState h layered5) = (Return tt, s0)
    ∧ S.model_time (self s0) = elapsed 0 [5%Q]
    ∧ array_of (world s0) 1%positive !! 7 = Some z0
    ∧ S.run_one_step 5 s0 = (Return tt, s)
    ∧ S.model_time (self s) = (elapsed 0 [5%Q] + 5)%Q
    ∧ array_of (world s) 1%positive !! 7 = Some z1
    ∧ interpolant 1 1 ramp (elapsed 0 [5%Q]) = Return target
    ∧ (z1 == z0 - (z0 - target))%Q
    ∧ (z1 == target)%Q.
Proof.
  apply (single_history_step_lags layered5 1%positive 7 "ramp.txt" ramp 1%Q [5%Q] 5%Q).
  - reflexivity.
  - reflexivity.
  - reflexivity.
  - simpl. lia.
  - intros b Hb. vm_compute in Hb. injection Hb as <-. split; [discriminate|].
    vm_compute. eauto.
  - vm_compute. reflexivity.
Defined.

(** C4 as stated fails: after one step of 10 from time 0 on the ramp table
    the clock reads 10 and the outlet is still at the interpolant's value
    for time 0, not at its value for time 10. *)
Lemma single_history_tracks_new_time_counterexample :
  ∃ h s z1 target,
    S.__init__ 0 None (Some "ramp.txt") None raster5_with_ramp
    = (Return h, raster5_with_ramp)
    ∧ S.run_one_step 10 (mkState h raster5_with_ramp) = (Return tt, s)
    ∧ S.model_time (self s) = (0 + 10)%Q
    ∧ array_of (world s) 1%positive !! 0%nat = Some z1
    ∧ interpolant 0 1 ramp (S.model_time (self s)) = Return target
    ∧ ¬ (z1 == target)%Q.
Proof.
  eexists _, _, _, _. split_and!.
  - vm_compute. reflexivity.
  - vm_compute. reflexivity.
  - vm_compute. reflexivity.
  - vm_compute. reflexivity.
  - vm_compute. reflexivity.
  - vm_compute. intros H. discriminate H.
Qed.

(** C5 (as the code has it): with [model_end_elevation = e] the
    interpolant built at construction scales the file's changes by
    [|start - e| / |change[0] - change[last]|].  On a table with ascending
    times whose first and last change differ, a run of steps that brings
    the clock to the table's last time leaves the outlet at the rescaled
    value for the time at which the last of them started; the step that
    starts then returns and puts the outlet at
    [start + factor * change[last]].  That is [e] when the table starts at
    change 0 and its last change points from [start] towards [e]. *)
Theorem single_history_rescaled_end
    (w : World) (a : loc) (outlet_node : nat) (path : string)
    (rows : list (Q * Q)) (start e : Q) (dts : list Q) (dt : Q) :
  topography w = Some a →
  array_of w a !! outlet_node = Some start →
  files w !! path = Some (Table rows) →
  (2 ≤ length rows)%nat →
  (∀ b, bedrock w = Some b → b ≠ a ∧ is_Some (array_of w b !! outlet_node)) →
  ascending rows.*1 = true →
  ¬ (hd 0 rows.*2 == List.last rows.*2 0)%Q →
  in_range (interp1d rows.*1 rows.*2) 0 dts = true →
  (elapsed 0 dts == List.last rows.*1 0)%Q →
  let scaling_factor :=
    (Qabs (start - e) / Qabs (hd 0 rows.*2 - List.last rows.*2 0))%Q in
  ∃ h s0 s z1,
    S.__init__ outlet_node None (Some path) (Some e) w = (Return h, w)
    ∧ S.outlet_elevation_obj h
      = Some (interp1d rows.*1 (map (λ c, scaling_factor * c + start)%Q rows.*2))
    ∧ run_steps S.run_one_step dts (mkState h w) = (Return tt, s0)
    ∧ S.model_time (self s0) = elapsed 0 dts
    ∧ (∀ dts0 dt0, dts = dts0 ++ [dt0] →
         ∃ z0 c0,
           array_of (world s0) a !! outlet_node = Some z0
           ∧ interp1d_call (interp1d rows.*1 rows.*2) (elapsed 0 dts0) = Return c0
           ∧ (z0 == start + scaling_factor * c0)%Q)
    ∧ S.run_one_step dt s0 = (Return tt, s)
    ∧ S.model_time (self s) = (elapsed 0 dts + dt)%Q
    ∧ array_of (world s) a !! outlet_node = Some z1
    ∧ (z1 == start + scaling_factor * List.last rows.*2 0)%Q
    ∧ ((hd 0 rows.*2 == 0)%Q → (0 <= (e - start) * List.last rows.*2 0)%Q →
       (z1 == e)%Q).
Proof.
  intros Htopo Hz Hfile Hrows Hbed Hasc Hne Hin Hend sf.
  pose proof (S_init_history w a outlet_node path rows start (Some e)
                Htopo Hz Hfile Hrows) as Hinit.
  fold sf in Hinit.
  set (f := lift_knot sf start <$> interp1d rows.*1 rows.*2) in *.
  set (h := S.mkHandler 0 outlet_node a None (Some f)) in *.
  pose proof Hin as Hraw.
  rewrite <- (in_range_affine sf start) in Hin. fold f in Hin.
  destruct (S_history_steps f dts h w eq_refl (mk_is_Some _ _ Hz) Hbed Hin)
    as ([h0 w0] & Hrun & Hself & Hgrid & [z0 Hz0] & Hb0).
  simpl in Hself, Hgrid, Hz0, Hb0. subst h0.
  pose proof (interp1d_call_affine sf start (interp1d rows.*1 rows.*2)
                (elapsed 0 dts)) as Haff.
  assert (interp1d_call (interp1d rows.*1 rows.*2) (elapsed 0 dts)
          = Return (List.last rows.*2 0%Q)) as Hcall.
  { rewrite (interp1d_ascending rows Hasc).
    apply interp1d_call_last; try done. intros ->. simpl in Hrows. lia. }
  rewrite Hcall in Haff.
  destruct Haff as (v & Hv & Hvc). fold f in Hv.
  set (h0 := S.mkHandler (elapsed 0 dts) outlet_node a None (Some f)) in *.
  destruct (S_history_step h0 w0 dt z0 v f eq_refl Hz0 Hv)
    as (s & Hstep & Hs & _ & Hz1 & _).
  { intros b Hb. unfold bedrock in *. rewrite Hgrid in Hb.
    split; [by apply Hbed|by apply Hb0]. }
  simpl in Hs, Hz1.
  exists h, (mkState h0 w0), s, (z0 - (z0 - v))%Q.
  unfold affine in Hvc.
  split_and!; try done.
  - simpl. f_equal. symmetry. apply interp1d_affine.
  - intros dts0 dt0 ->. simpl.
    rewrite in_range_app in Hin. apply andb_prop in Hin as [Hin0 Hin1].
    simpl in Hin1. apply andb_prop in Hin1 as [Hdef _].
    destruct (S_history_steps f dts0 h w eq_refl (mk_is_Some _ _ Hz) Hbed Hin0)
      as ([h1 w1] & Hrun1 & Hself1 & Hgrid1 & [zv Hzv] & Hb1).
    simpl in Hself1, Hgrid1, Hzv, Hb1. subst h1.
    pose proof (interp1d_call_affine sf start (interp1d rows.*1 rows.*2)
                  (elapsed 0 dts0)) as Haff0.
    fold f in Haff0. unfold defined_at in Hdef.
    destruct (interp1d_call (interp1d rows.*1 rows.*2) (elapsed 0 dts0))
      as [c0|] eqn:Hc0; [|by rewrite Haff0 in Hdef].
    destruct Haff0 as (v0 & Hv0 & Hvc0). unfold affine in Hvc0.
    set (h1 := S.mkHandler (elapsed 0 dts0) outlet_node a None (Some f)) in *.
    destruct (S_history_step h1 w1 dt0 zv v0 f eq_refl Hzv Hv0)
      as (s1 & Hstep1 & _ & _ & Hz1' & _).
    { intros b Hb. unfold bedrock in *. rewrite Hgrid1 in Hb.
      split; [by apply Hbed|by apply Hb1]. }
    rewrite (run_steps_app _ _ _ _ _ Hrun1) in Hrun.
    simpl in Hrun. unfold mbind, M_bind in Hrun. rewrite Hstep1 in Hrun.
    simpl in Hrun. injection Hrun as ->. simpl in Hz1'.
    exists (zv - (zv - v0))%Q, c0. split_and!; [done..|]. lra.
  - by rewrite Hs.
  - lra.
  - intros Hc0 Hdir.
    assert (¬ (List.last rows.*2 0 == 0)%Q) as Hcl.
    { intros Hcl. apply Hne. by rewrite Hc0, Hcl. }
    pose proof (rescale_hits_end start e _ _ Hc0 Hcl Hdir) as Hhit.
    fold sf in Hhit. lra.
Qed.

Lemma single_history_rescaled_end_witness :
  let scaling_factor :=
    (Qabs (0 - -20) / Qabs (hd 0 ramp.*2 - List.last ramp.*2 0))%Q in
  ∃ h s0 s z1,
    S.__init__ 0 None (Some "ramp.txt") (Some (-20)%Q) raster5_with_ramp
    = (Return h, raster5_with_ramp)
    ∧ S.outlet_elevation_obj h
      = Some (interp1d ramp.*1 (map (λ c, scaling_factor * c + 0)%Q ramp.*2))
    ∧ run_steps S.run_one_step [5; 5]%Q (mkState h raster5_with_ramp) = (Return tt, s0)
    ∧ S.model_time (self s0) = elapsed 0 [5; 5]%Q
    ∧ (∀ dts0 dt0, [5; 5]%Q = dts0 ++ [dt0] →
         ∃ z0 c0,
           array_of (world s0) 1%positive !! 0%nat = Some z0
           ∧ interp1d_call (interp1d ramp.*1 ramp.*2) (elapsed 0 dts0) = Return c0
           ∧ (z0 == 0 + scaling_factor * c0)%Q)
    ∧ S.run_one_step 5 s0 = (Return tt, s)
    ∧ S.model_time (self s) = (elapsed 0 [5; 5]%Q + 5)%Q
    ∧ array_of (world s) 1%positive !! 0%nat = Some z1
    ∧ (z1 == 0 + scaling_factor * List.last ramp.*2 0)%Q
    ∧ ((hd 0 ramp.*2 == 0)%Q → (0 <= (-20 - 0) * List.last ramp.*2 0)%Q →
       (z1 == -20)%Q).
Proof.
  apply (single_history_rescaled_end raster5_with_ramp 1%positive 0 "ramp.txt"
           ramp 0%Q (-20)%Q [5; 5]%Q 5%Q).
  - reflexivity.
  - reflexivity.
  - reflexivity.
  - simpl. lia.
  - intros b Hb. vm_compute in Hb. discriminate Hb.
  - reflexivity.
  - vm_compute. intros H. discriminate H.
  - vm_compute. reflexivity.
  - vm_compute. reflexivity.
Defined.

(** C5 as stated fails in three ways, each from start elevation 0.  On
    the ramp table rescaled to end at -20, two steps of 5 bring the clock
    to the table's last time 10, and the outlet stands at -10, the rescaled
    value for time 5.  On a table that goes from change 5 to change -5,
    rescaled to end at -20, the step that starts at time 10 puts the outlet
    at -10.  On the ramp table, which falls, an end elevation of 20 makes
    that step put the outlet at -20. *)
Lemma single_history_rescaled_end_counterexample :
  (∃ h s z1,
     S.__init__ 0 None (Some "ramp.txt") (Some (-20)%Q) raster5_with_ramp
     = (Return h, raster5_with_ramp)
     ∧ run_steps S.run_one_step [5; 5]%Q (mkState h raster5_with_ramp) = (Return tt, s)
     ∧ (S.model_time (self s) == List.last ramp.*1 0)%Q
     ∧ array_of (world s) 1%positive !! 0%nat = Some z1
     ∧ (z1 == -10)%Q
     ∧ ¬ (z1 == -20)%Q)
  ∧ (∃ h s z1,
       S.__init__ 0 None (Some "offset.txt") (Some (-20)%Q) raster5_with_offset_ramp
       = (Return h, raster5_with_offset_ramp)
       ∧ run_steps S.run_one_step [5; 5; 5]%Q (mkState h raster5_with_offset_ramp)
         = (Return tt, s)
       ∧ array_of (world s) 1%positive !! 0%nat = Some z1
       ∧ (z1 == -10)%Q
       ∧ ¬ (z1 == -20)%Q)
  ∧ (∃ h s z1,
       S.__init__ 0 None (Some "ramp.txt") (Some 20%Q) raster5_with_ramp
       = (Return h, raster5_with_ramp)
       ∧ run_steps S.run_one_step [5; 5; 5]%Q (mkState h raster5_with_ramp)
         = (Return tt, s)
       ∧ array_of (world s) 1%positive !! 0%nat = Some z1
       ∧ (z1 == -20)%Q
       ∧ ¬ (z1 == 20)%Q).
Proof.
  split_and!.
  - eexists _, _, _. split_and!.
    + vm_compute. reflexivity.
    + vm_compute. reflexivity.
    + vm_compute. reflexivity.
    + vm_compute. reflexivity.
    + vm_compute. reflexivity.
    + vm_compute. intros H. discriminate H.
  - eexists _, _, _. split_and!.
    + vm_compute. reflexivity.
    + vm_compute. reflexivity.
    + vm_compute. reflexivity.
    + vm_compute. reflexivity.
    + vm_compute. intros H. discriminate H.
  - eexists _, _, _. split_and!.
    + vm_compute. reflexivity.
    + vm_compute. reflexivity.
    + vm_compute. reflexivity.
    + vm_compute. reflexivity.
    + vm_compute. intros H. discriminate H.
Qed.

(** C10: a step of the single-node handler, returning or raising, leaves
    the grid's field table, its node status and the files as they were,
    changes no array other than those of the elevation and bedrock
    fields, changes no entry other than the outlet node's in any array,
    and resizes nothing. *)
Theorem single_step_frame (dt : Q) (s : State S.Handler) :
  topography (world s) = Some (S.z (self s)) →
  grid (world (S.run_one_step dt s).2) = grid (world s)
  ∧ files (world (S.run_one_step dt s).2) = files (world s)
  ∧ (∀ a, topography (world s) ≠ Some a → bedrock (world s) ≠ Some a →
       arrays (world (S.run_one_step dt s).2) !! a = arrays (world s) !! a)
  ∧ (∀ a i, i ≠ S.outlet_node (self s) →
       array_of (world (S.run_one_step dt s).2) a !! i = array_of (world s) a !! i)
  ∧ (∀ a, length (array_of (world (S.run_one_step dt s).2) a)
          = length (array_of (world s) a))
  ∧ S.outlet_node (self (S.run_one_step dt s).2) = S.outlet_node (self s)
  ∧ S.z (self (S.run_one_step dt s).2) = S.z (self s).
Proof.
  intros Htopo.
  destruct (S_step_invariant dt s) as (Ht & Ho & Hz & _).
  destruct Ht as [Hg Hf Hlen Harr Hent].
  split_and!; try done.
  intros a Ha Hb. apply Harr. intros [->|Hb']; [by rewrite Htopo in Ha|done].
Qed.

Lemma single_step_frame_witness :
  let s := mkState (S.mkHandler 0 7 1%positive (Some (-1 # 10)%Q) None) layered5 in
  grid (world (S.run_one_step 10 s).2) = grid (world s)
  ∧ files (world (S.run_one_step 10 s).2) = files (world s)
  ∧ (∀ a, topography (world s) ≠ Some a → bedrock (world s) ≠ Some a →
       arrays (world (S.run_one_step 10 s).2) !! a = arrays (world s) !! a)
  ∧ (∀ a i, i ≠ S.outlet_node (self s) →
       array_of (world (S.run_one_step 10 s).2) a !! i = array_of (world s) a !! i)
  ∧ (∀ a, length (array_of (world (S.run_one_step 10 s).2) a)
          = length (array_of (world s) a))
  ∧ S.outlet_node (self (S.run_one_step 10 s).2) = S.outlet_node (self s)
  ∧ S.z (self (S.run_one_step 10 s).2) = S.z (self s).
Proof.
  intros s. apply (single_step_frame 10 s). reflexivity.
Defined.

(** ** [ClosedNodeBaselevelHandler.run_one_step] *)

Lemma C_step_invariant dt (s : State C.Handler) :
  wp (C.run_one_step dt)
     (λ r s',
        touches (λ a, a = C.z (self s) ∨ bedrock (world s) = Some a)
                (λ i, C.nodes_to_lower (self s) !! i = Some true)
                (world s) (world s')
        ∧ self s' = C.advance_time dt (self s)) s.
Proof.
  destruct s as [h w]. unfold C.run_one_step. wp_run.
  all: split_and!; try done; touches_chain.
Qed.

Lemma C_step_offset (dt : Q) (s : State C.Handler) (b : loc) (i : nat) (zv bv : Q) :
  bedrock (world s) = Some b →
  C.nodes_to_lower (self s) !! i = Some true →
  array_of (world s) (C.z (self s)) !! i = Some zv →
  array_of (world s) b !! i = Some bv →
  wp (C.run_one_step dt)
     (λ _ s', ∃ zv' bv',
        array_of (world s') (C.z (self s)) !! i = Some zv'
        ∧ array_of (world s') b !! i = Some bv'
        ∧ (zv' - zv == bv' - bv)%Q) s.
Proof.
  destruct s as [h w]. simpl. unfold bedrock. intros Hb Hm Hz Hbv.
  unfold C.run_one_step. wp_run; simplify_eq/=; same_lhs.
  all: try (eexists _, _; split_and!; [done..|lra]).
  all: match goal with
       | |- context [map ?g (select ?m ?l)] => set (tc := map g (select m l)) in *
       | H : context [map ?g (select ?m ?l)] |- _ =>
           set (tc := map g (select m l)) in *
       end.
  all: assert (length tc = count (C.nodes_to_lower h)) as Htc
         by (subst tc; by rewrite length_map, length_select).
  all: rewrite !array_of_store in *.
  all: destruct (decide (b = C.z h)) as [->|Hne]; simplify_eq.
  all: rewrite ?length_assign, ?length_zip_with in *.
  all: rewrite ?length_select in * by (by rewrite ?length_assign).
  all: try lia.
  all: repeat first [rewrite decide_True by congruence
                    |rewrite decide_False by congruence].
  all: clearbody tc.
  - destruct (lookup_assign_sub (C.nodes_to_lower h) tc _ i zv Hz) as (v1 & Hv1 & _).
    destruct (lookup_assign_sub (C.nodes_to_lower h) tc _ i v1 Hv1) as (v2 & Hv2 & _).
    exists v2, v2. split_and!; [done..|lra].
  - destruct (lookup_assign_sub (C.nodes_to_lower h) tc _ i zv Hz) as (v1 & Hv1 & Hq1).
    destruct (lookup_assign_sub (C.nodes_to_lower h) tc _ i bv Hbv) as (v2 & Hv2 & Hq2).
    exists v1, v2. split_and!; [done..|lra].
Qed.

Lemma C_history_step (dt : Q) (s : State C.Handler) f (i : nat) (zv : Q) :
  C.outlet_elevation_obj (self s) = Some f →
  bedrock (world s) ≠ Some (C.z (self s)) →
  C.nodes_to_lower (self s) !! i = Some true →
  array_of (world s) (C.z (self s)) !! i = Some zv →
  wp (C.run_one_step dt)
     (λ r s', r = Return tt →
        ∃ zv' target,
          interp1d_call f (C.model_time (self s) + dt) = Return target
          ∧ array_of (world s') (C.z (self s)) !! i = Some zv'
          ∧ (zv' == zv - C.prefactor (self s) * (zv - target))%Q) s.
Proof.
  destruct s as [h w]. simpl. unfold bedrock. intros Hobj Hb Hm Hz.
  unfold C.run_one_step. wp_run; simplify_eq/=; same_lhs; try done.
  all: match goal with
       | |- context [map ?g (select ?m ?l)] => set (tc := map g (select m l)) in *
       end.
  all: assert (delta_at (C.nodes_to_lower h) tc i = C.prefactor h * (zv - a))%Q as Hd
         by (subst tc; by apply (delta_at_select (λ v, C.prefactor h * (v - a))%Q)).
  all: rewrite !array_of_store in *.
  all: repeat first [rewrite decide_True by congruence
                    |rewrite decide_False by congruence].
  all: clearbody tc.
  all: destruct (lookup_assign_sub (C.nodes_to_lower h) tc _ i zv Hz) as (v1 & Hv1 & Hq1).
  all: exists v1, a; split_and!; [done..|]; rewrite Hq1, Hd; reflexivity.
Qed.

(** C1: a multi-node handler built with a constant lowering rate never
    lowers or raises any node: [run_one_step] advances the clock and then
    raises NameError at the first use of the unbound [nodes_to_lower], with
    every array as it was. *)
Theorem closed_constant_rate_step_raises
    (w w' : World) (modify_closed_nodes : bool) (rate dt : Q)
    (model_end_elevation : option Q) (h : C.Handler) :
  C.__init__ modify_closed_nodes (Some rate) None model_end_elevation w = (Return h, w') →
  C.run_one_step dt (mkState h w')
  = (Raise NameError, mkState (C.advance_time dt h) w').
Proof.
  intros Hinit.
  assert (C.outlet_elevation_obj h = None) as Hobj.
  { revert Hinit. unfold C.__init__, mbind, M_bind, field, gets. simpl.
    destruct (at_node (grid w) !! "topographic__elevation"); simpl; [|done].
    by intros [= <- _]. }
  unfold C.run_one_step, mbind, M_bind, modify, gets. simpl. by rewrite Hobj.
Qed.

Lemma closed_constant_rate_step_raises_witness :
  (∃ h, C.__init__ true (Some (-1 # 10)) None None raster5 = (Return h, raster5)
        ∧ C.run_one_step 10 (mkState h raster5)
          = (Raise NameError, mkState (C.advance_time 10 h) raster5))
  ∧ (∃ h, C.__init__ false (Some (-1 # 10)) None None raster5 = (Return h, raster5)
          ∧ C.run_one_step 10 (mkState h raster5)
            = (Raise NameError, mkState (C.advance_time 10 h) raster5))
  ∧ array_of raster5 1%positive = replicate 25 0%Q.
Proof.
  split_and!; [| |reflexivity].
  - eexists. split; [vm_compute; reflexivity|].
    apply (closed_constant_rate_step_raises raster5 raster5 true (-1 # 10) 10 None).
    vm_compute. reflexivity.
  - eexists. split; [vm_compute; reflexivity|].
    apply (closed_constant_rate_step_raises raster5 raster5 false (-1 # 10) 10 None).
    vm_compute. reflexivity.
Defined.

(** ** Both handlers *)

(** C8: whatever a step does, returning or raising, it moves the
    elevation and the bedrock of a target node by the same amount, so
    their difference is kept.  Target nodes are the outlet node for the
    single-node handler and the nodes of the mask for the multi-node
    handler; [z] is the handler's elevation array and [b] the array of the
    grid's bedrock field. *)
Theorem steps_keep_bedrock_offset (dt : Q) (b : loc) (i : nat) (zv bv : Q) :
  (∀ s : State S.Handler,
     bedrock (world s) = Some b →
     i = S.outlet_node (self s) →
     array_of (world s) (S.z (self s)) !! i = Some zv →
     array_of (world s) b !! i = Some bv →
     ∃ zv' bv',
       array_of (world (S.run_one_step dt s).2) (S.z (self s)) !! i = Some zv'
       ∧ array_of (world (S.run_one_step dt s).2) b !! i = Some bv'
       ∧ (zv' - zv == bv' - bv)%Q
       ∧ (zv' - bv' == zv - bv)%Q)
  ∧ (∀ s : State C.Handler,
       bedrock (world s) = Some b →
       C.nodes_to_lower (self s) !! i = Some true →
       array_of (world s) (C.z (self s)) !! i = Some zv →
       array_of (world s) b !! i = Some bv →
       ∃ zv' bv',
         array_of (world (C.run_one_step dt s).2) (C.z (self s)) !! i = Some zv'
         ∧ array_of (world (C.run_one_step dt s).2) b !! i = Some bv'
         ∧ (zv' - zv == bv' - bv)%Q
         ∧ (zv' - bv' == zv - bv)%Q).
Proof.
  split.
  - intros s Hb -> Hz Hbv.
    destruct (S_step_offset dt s b zv bv Hb Hz Hbv) as (zv' & bv' & ? & ? & ?).
    exists zv', bv'. split_and!; try done. lra.
  - intros s Hb Hm Hz Hbv.
    destruct (C_step_offset dt s b i zv bv Hb Hm Hz Hbv) as (zv' & bv' & ? & ? & ?).
    exists zv', bv'. split_and!; try done. lra.
Qed.

Lemma steps_keep_bedrock_offset_witness :
  (let s := mkState (S.mkHandler 0 7 1%positive (Some (-1 # 10)%Q) None) layered5 in
   ∃ zv' bv',
     array_of (world (S.run_one_step 10 s).2) 1%positive !! 7 = Some zv'
     ∧ array_of (world (S.run_one_step 10 s).2) 2%positive !! 7 = Some bv'
     ∧ (zv' - 1 == bv' - 0)%Q
     ∧ (zv' - bv' == 1 - 0)%Q)
  ∧ (∃ h, C.__init__ true None (Some "ramp.txt") (Some (-19)%Q) layered5
          = (Return h, layered5)
          ∧ let s := mkState h layered5 in
            ∃ zv' bv',
              array_of (world (C.run_one_step 5 s).2) 1%positive !! 0 = Some zv'
              ∧ array_of (world (C.run_one_step 5 s).2) 2%positive !! 0 = Some bv'
              ∧ (zv' - 1 == bv' - 0)%Q
              ∧ (zv' - bv' == 1 - 0)%Q).
Proof.
  split.
  - intros s.
    apply (proj1 (steps_keep_bedrock_offset 10 2%positive 7 1 0) s);
      reflexivity.
  - eexists. split; [vm_compute; reflexivity|]. intros s.
    apply (proj2 (steps_keep_bedrock_offset 5 2%positive 0 1 0) s);
      reflexivity.
Defined.

(** C9: both handlers start their clock at 0 and a step that returns has
    advanced it by exactly [dt].  The single-node handler advances it
    last: a step that raises leaves the clock alone, and in history mode
    the step puts the outlet at the interpolant's value for the time
    before the step.  The multi-node handler advances it first: the clock
    has moved even when the step raises, and in history mode the step moves
    each target node by [prefactor * (z - f (t + dt))], the interpolant
    taken at the time after the increment. *)
Theorem clock_ordering (dt : Q) :
  (∀ w o rate path mee h w',
     S.__init__ o rate path mee w = (Return h, w') → S.model_time h = 0%Q)
  ∧ (∀ w m rate path mee h w',
       C.__init__ m rate path mee w = (Return h, w') → C.model_time h = 0%Q)
  ∧ (∀ s : State S.Handler,
       S.model_time (self (S.run_one_step dt s).2)
       = match (S.run_one_step dt s).1 with
         | Return _ => (S.model_time (self s) + dt)%Q
         | Raise _ => S.model_time (self s)
         end)
  ∧ (∀ (s : State S.Handler) f,
       S.outlet_elevation_obj (self s) = Some f →
       bedrock (world s) ≠ Some (S.z (self s)) →
       (S.run_one_step dt s).1 = Return tt →
       ∃ zv' target,
         interp1d_call f (S.model_time (self s)) = Return target
         ∧ array_of (world (S.run_one_step dt s).2) (S.z (self s))
             !! S.outlet_node (self s) = Some zv'
         ∧ (zv' == target)%Q)
  ∧ (∀ s : State C.Handler,
       C.model_time (self (C.run_one_step dt s).2) = (C.model_time (self s) + dt)%Q)
  ∧ (∀ (s : State C.Handler) f i zv,
       C.outlet_elevation_obj (self s) = Some f →
       bedrock (world s) ≠ Some (C.z (self s)) →
       C.nodes_to_lower (self s) !! i = Some true →
       array_of (world s) (C.z (self s)) !! i = Some zv →
       (C.run_one_step dt s).1 = Return tt →
       ∃ zv' target,
         interp1d_call f (C.model_time (self s) + dt) = Return target
         ∧ array_of (world (C.run_one_step dt s).2) (C.z (self s)) !! i = Some zv'
         ∧ (zv' == zv - C.prefactor (self s) * (zv - target))%Q).
Proof.
  split_and!.
  - intros w o rate path mee h w' H. by apply S_init_attached in H as (_ & _ & _ & ?).
  - intros w m rate path mee h w' H. by apply C_init_attached in H as (_ & _ & _ & ?).
  - intros s. by destruct (S_step_invariant dt s) as (_ & _ & _ & _ & _ & ?).
  - intros s f Hobj Hb Hr. by apply (S_history_value dt s f Hobj Hb).
  - intros s. destruct (C_step_invariant dt s) as [_ Hself].
    unfold wp in Hself. by rewrite Hself.
  - intros s f i zv Hobj Hb Hm Hz Hr. by apply (C_history_step dt s f i zv Hobj Hb Hm Hz).
Qed.

Lemma clock_ordering_witness :
  (∃ h f, S.__init__ 0 None (Some "ramp.txt") None raster5_with_ramp
          = (Return h, raster5_with_ramp)
          ∧ S.outlet_elevation_obj h = Some f
          ∧ S.model_time h = 0%Q
          ∧ let s := mkState h raster5_with_ramp in
            S.model_time (self (S.run_one_step 5 s).2) = (0 + 5)%Q
            ∧ ∃ zv' target,
                interp1d_call f 0 = Return target
                ∧ array_of (world (S.run_one_step 5 s).2) 1%positive !! 0 = Some zv'
                ∧ (zv' == target)%Q)
  ∧ (∃ h f, C.__init__ true None (Some "ramp.txt") (Some (-20)%Q) raster5_with_ramp
            = (Return h, raster5_with_ramp)
            ∧ C.outlet_elevation_obj h = Some f
            ∧ C.model_time h = 0%Q
            ∧ let s := mkState h raster5_with_ramp in
              C.model_time (self (C.run_one_step 5 s).2) = (0 + 5)%Q
              ∧ ∃ zv' target,
                  interp1d_call f (0 + 5) = Return target
                  ∧ array_of (world (C.run_one_step 5 s).2) 1%positive !! 0
                    = Some zv'
                  ∧ (zv' == 0 - 1 * (0 - target))%Q).
Proof.
  destruct (clock_ordering 5) as (HS0 & HC0 & HSt & HSv & HCt & HCv).
  split.
  - eexists _, _. split; [vm_compute; reflexivity|].
    split; [reflexivity|]. split.
    { apply (HS0 raster5_with_ramp 0%nat None (Some "ramp.txt") None _
               raster5_with_ramp).
      vm_compute. reflexivity. }
    intros s. split; [exact (HSt s)|].
    apply (HSv s).
    + reflexivity.
    + vm_compute. intros H. discriminate H.
    + reflexivity.
  - eexists _, _. split; [vm_compute; reflexivity|].
    split; [reflexivity|]. split.
    { apply (HC0 raster5_with_ramp true None (Some "ramp.txt") (Some (-20)%Q) _
               raster5_with_ramp).
      vm_compute. reflexivity. }
    intros s. split; [exact (HCt s)|].
    apply (HCv s _ 0%nat 0%Q).
    + reflexivity.
    + vm_compute. intros H. discriminate H.
    + reflexivity.
    + reflexivity.
    + reflexivity.
Defined.

(** ** The handlers at their edges *)

(** X1: a grid without an elevation field is rejected by both
    constructors with KeyError, whatever the other arguments, and is left
    as it was. *)
Theorem init_requires_elevation_field
    (w : World) (outlet_node : nat) (modify_closed_nodes : bool)
    (rate : option Q) (path : option string) (model_end_elevation : option Q) :
  topography w = None →
  S.__init__ outlet_node rate path model_end_elevation w = (Raise KeyError, w)
  ∧ C.__init__ modify_closed_nodes rate path model_end_elevation w
    = (Raise KeyError, w).
Proof.
  unfold topography. intros Htopo.
  split; apply wp_outcome; unfold S.__init__, C.__init__; wp_run; by simplify_eq.
Qed.

Lemma init_requires_elevation_field_witness :
  S.__init__ 0 (Some (-1 # 10)%Q) None None bare5 = (Raise KeyError, bare5)
  ∧ C.__init__ true (Some (-1 # 10)%Q) None None bare5 = (Raise KeyError, bare5).
Proof.
  apply (init_requires_elevation_field bare5 0 true (Some (-1 # 10)%Q) None None).
  reflexivity.
Defined.

Lemma run_steps_raise {S} (step : Q → M S unit) dt dts s e s' :
  step dt s = (Raise e, s') → run_steps step (dt :: dts) s = (Raise e, s').
Proof. intros H. simpl. unfold mbind, M_bind. by rewrite H. Qed.

(** X2: the constant-rate constructor does not look at [outlet_node]: with
    a node id beyond the elevation array it returns a handler, and every
    step of that handler raises IndexError and changes nothing, the clock
    included.  The history constructor reads the outlet elevation and
    raises IndexError itself. *)
Theorem single_outlet_out_of_range
    (w : World) (a : loc) (outlet_node : nat) (rate : Q)
    (model_end_elevation : option Q) (dt : Q) (dts : list Q) :
  topography w = Some a →
  (length (array_of w a) ≤ outlet_node)%nat →
  let h := S.mkHandler 0 outlet_node a (Some rate) None in
  S.__init__ outlet_node (Some rate) None model_end_elevation w = (Return h, w)
  ∧ run_steps S.run_one_step (dt :: dts) (mkState h w)
    = (Raise IndexError, mkState h w)
  ∧ (∀ path, is_Some (files w !! path) →
       S.__init__ outlet_node None (Some path) model_end_elevation w
       = (Raise IndexError, w)).
Proof.
  intros Htopo Hlen h. unfold topography in Htopo.
  apply lookup_ge_None_2 in Hlen.
  split_and!.
  - apply wp_outcome. unfold S.__init__. wp_run; by simplify_eq.
  - apply run_steps_raise, wp_outcome. unfold S.run_one_step. wp_run; by simplify_eq.
  - intros path [x Hx]. apply wp_outcome. unfold S.__init__. wp_run; by simplify_eq.
Qed.

Lemma single_outlet_out_of_range_witness :
  let h := S.mkHandler 0 25 1%positive (Some (-1 # 10)%Q) None in
  S.__init__ 25 (Some (-1 # 10)%Q) None None raster5_with_ramp
  = (Return h, raster5_with_ramp)
  ∧ run_steps S.run_one_step [10; 10]%Q (mkState h raster5_with_ramp)
    = (Raise IndexError, mkState h raster5_with_ramp)
  ∧ (∀ path, is_Some (files raster5_with_ramp !! path) →
       S.__init__ 25 None (Some path) None raster5_with_ramp
       = (Raise IndexError, raster5_with_ramp)).
Proof.
  apply (single_outlet_out_of_range raster5_with_ramp 1%positive 25 (-1 # 10)%Q
           None 10%Q [10%Q]).
  - reflexivity.
  - vm_compute. lia.
Defined.

Lemma interp1d_call_raises f t e : interp1d_call f t = Raise e → e = ValueError.
Proof.
  destruct f as [|[x0 y0] rest]; simpl; [congruence|].
  destruct (_ && _); congruence.
Qed.

(** X3: a history-mode step that starts at an elapsed time outside the
    table raises ValueError and changes nothing; as the clock has not
    moved, every later step fails in the same way. *)
Theorem single_history_outside_table
    (s : State S.Handler) (f : list (Q * Q)) (dt : Q) (dts : list Q) :
  S.outlet_elevation_obj (self s) = Some f →
  is_Some (array_of (world s) (S.z (self s)) !! S.outlet_node (self s)) →
  defined_at f (S.model_time (self s)) = false →
  run_steps S.run_one_step (dt :: dts) s = (Raise ValueError, s).
Proof.
  destruct s as [h w]. simpl. intros Hobj [zv Hz] Hdef.
  apply run_steps_raise, wp_outcome. unfold S.run_one_step, defined_at in *.
  wp_run; simplify_eq/=; same_lhs; try done.
  all: match goal with
       | H : interp1d_call _ _ = _ |- _ => rewrite H in Hdef; try done
       end.
  split; [|done]. f_equal. by eapply interp1d_call_raises.
Qed.

Lemma single_history_outside_table_witness :
  let h := S.mkHandler 15 0 1%positive None (Some ramp) in
  run_steps S.run_one_step [5; 5]%Q (mkState h raster5_with_ramp)
  = (Raise ValueError, mkState h raster5_with_ramp).
Proof.
  intros h.
  apply (single_history_outside_table (mkState h raster5_with_ramp) ramp 5 [5%Q]).
  - reflexivity.
  - vm_compute. eauto.
  - reflexivity.
Defined.

(** X4: in constant-rate mode only the total time counts: two runs whose
    step lengths add up to the same time leave the outlet, and the bedrock
    under it, at the same values. *)
Theorem single_constant_rate_split
    (w : World) (a : loc) (outlet_node : nat) (rate z0 : Q)
    (model_end_elevation : option Q) (dts1 dts2 : list Q) :
  topography w = Some a →
  array_of w a !! outlet_node = Some z0 →
  (∀ b, bedrock w = Some b → b ≠ a ∧ is_Some (array_of w b !! outlet_node)) →
  (elapsed 0 dts1 == elapsed 0 dts2)%Q →
  ∃ h s1 s2 z1 z2,
    S.__init__ outlet_node (Some rate) None model_end_elevation w = (Return h, w)
    ∧ run_steps S.run_one_step dts1 (mkState h w) = (Return tt, s1)
    ∧ run_steps S.run_one_step dts2 (mkState h w) = (Return tt, s2)
    ∧ array_of (world s1) a !! outlet_node = Some z1
    ∧ array_of (world s2) a !! outlet_node = Some z2
    ∧ (z1 == z2)%Q
    ∧ (∀ b, bedrock w = Some b →
         ∃ b1 b2, array_of (world s1) b !! outlet_node = Some b1
                  ∧ array_of (world s2) b !! outlet_node = Some b2
                  ∧ (b1 == b2)%Q).
Proof.
  intros Htopo Hz Hbed Heq.
  set (h := S.mkHandler 0 outlet_node a (Some rate) None).
  destruct (S_constant_steps rate dts1 h w z0) as (s1 & z1 & Hrun1 & _ & Hz1 & Hq1 & Hb1);
    try done.
  destruct (S_constant_steps rate dts2 h w z0) as (s2 & z2 & Hrun2 & _ & Hz2 & Hq2 & Hb2);
    try done.
  simpl in *.
  exists h, s1, s2, z1, z2. split_and!; try done.
  - unfold S.__init__, topography, mbind, M_bind, field in *. simpl.
    by rewrite Htopo.
  - rewrite Heq in Hq1. lra.
  - intros b Hb. destruct (Hbed b Hb) as [_ [b0 Hb0]].
    destruct (Hb1 b b0 Hb Hb0) as (b1 & ? & ?).
    destruct (Hb2 b b0 Hb Hb0) as (b2 & ? & Hq).
    exists b1, b2. split_and!; try done. rewrite <- Heq in Hq. lra.
Qed.

Lemma single_constant_rate_split_witness :
  ∃ h s1 s2 z1 z2,
    S.__init__ 7 (Some (-1 # 10)%Q) None None layered5 = (Return h, layered5)
    ∧ run_steps S.run_one_step [10; 10]%Q (mkState h layered5) = (Return tt, s1)
    ∧ run_steps S.run_one_step [5; 15]%Q (mkState h layered5) = (Return tt, s2)
    ∧ array_of (world s1) 1%positive !! 7 = Some z1
    ∧ array_of (world s2) 1%positive !! 7 = Some z2
    ∧ (z1 == z2)%Q
    ∧ (∀ b, bedrock layered5 = Some b →
         ∃ b1 b2, array_of (world s1) b !! 7 = Some b1
                  ∧ array_of (world s2) b !! 7 = Some b2
                  ∧ (b1 == b2)%Q).
Proof.
  apply (single_constant_rate_split layered5 1%positive 7 (-1 # 10)%Q 1%Q None
           [10; 10]%Q [5; 15]%Q).
  - reflexivity.
  - reflexivity.
  - intros b Hb. vm_compute in Hb. injection Hb as <-. split; [discriminate|].
    vm_compute. eauto.
  - vm_compute. reflexivity.
Defined.

(** ** [ClosedNodeBaselevelHandler] in history mode *)

(** A history-mode step of the multi-node handler returns when the mask
    fits the arrays and the new time is inside the table. *)
Lemma C_history_returns (dt : Q) (s : State C.Handler) f :
  C.outlet_elevation_obj (self s) = Some f →
  length (C.nodes_to_lower (self s)) = length (array_of (world s) (C.z (self s))) →
  (∀ b, bedrock (world s) = Some b →
        length (array_of (world s) b) = length (array_of (world s) (C.z (self s)))) →
  defined_at f (C.model_time (self s) + dt) = true →
  wp (C.run_one_step dt) (λ r _, r = Return tt) s.
Proof.
  destruct s as [h w]. simpl. unfold bedrock, defined_at. intros Hobj Hlen Hb Hdef.
  unfold C.run_one_step. wp_run; simplify_eq/=; same_lhs; try done.
  all: try match goal with
       | H : interp1d_call _ _ = _ |- _ => by rewrite H in Hdef
       end.
  all: rewrite ?array_of_store in *.
  all: repeat case_decide; simplify_eq.
  all: rewrite ?length_assign, ?length_zip_with, ?length_map in *.
  all: rewrite ?length_select in * by (rewrite ?length_assign; congruence).
  all: try lia.
  all: specialize (Hb _ eq_refl); congruence.
Qed.

(** What a returning history-mode step does to the nodes of the mask, and
    that it returns. *)
Lemma C_history_step_total (dt : Q) (h : C.Handler) (w : World) f :
  C.outlet_elevation_obj h = Some f →
  length (C.nodes_to_lower h) = length (array_of w (C.z h)) →
  (∀ b, bedrock w = Some b →
        b ≠ C.z h ∧ length (array_of w b) = length (array_of w (C.z h))) →
  defined_at f (C.model_time h + dt) = true →
  ∃ w' target,
    C.run_one_step dt (mkState h w) = (Return tt, mkState (C.advance_time dt h) w')
    ∧ interp1d_call f (C.model_time h + dt) = Return target
    ∧ touches (λ a, a = C.z h ∨ bedrock w = Some a)
              (λ i, C.nodes_to_lower h !! i = Some true) w w'
    ∧ (∀ i zv, C.nodes_to_lower h !! i = Some true →
         array_of w (C.z h) !! i = Some zv →
         ∃ zv', array_of w' (C.z h) !! i = Some zv'
                ∧ (zv' == zv - C.prefactor h * (zv - target))%Q).
Proof.
  intros Hobj Hlen Hb Hdef.
  pose proof (C_history_returns dt (mkState h w) f Hobj Hlen
                (λ b Hbed, proj2 (Hb b Hbed)) Hdef) as Hret.
  pose proof (C_step_invariant dt (mkState h w)) as Hinv.
  unfold wp in Hret, Hinv.
  destruct (C.run_one_step dt (mkState h w)) as [r [h' w']] eqn:Hstep.
  simpl in *. destruct Hinv as [Htouch ->]. subst r.
  unfold defined_at in Hdef.
  destruct (interp1d_call f (C.model_time h + dt)) as [target|] eqn:Hcall; [|done].
  exists w', target. split_and!; try done.
  intros i zv Hm Hz.
  assert (bedrock w ≠ Some (C.z h)) as Hne.
  { intros Hbed. by destruct (Hb _ Hbed). }
  pose proof (C_history_step dt (mkState h w) f i zv Hobj Hne Hm Hz) as Hval.
  unfold wp in Hval. rewrite Hstep in Hval. simpl in Hval.
  destruct (Hval eq_refl) as (zv' & t' & Ht' & Hzv' & Hq).
  rewrite Hcall in Ht'. injection Ht' as <-. eauto.
Qed.

(** X5: with prefactor 1 (the handler of the closed nodes) a history-mode
    step returns and puts every node of the mask at the interpolated
    elevation of the new time, whatever their elevations were; all other
    entries stay. *)
Theorem closed_history_step_levels
    (dt : Q) (h : C.Handler) (w : World) (f : list (Q * Q)) :
  C.outlet_elevation_obj h = Some f →
  C.prefactor h = 1%Q →
  length (C.nodes_to_lower h) = length (array_of w (C.z h)) →
  (∀ b, bedrock w = Some b →
        b ≠ C.z h ∧ length (array_of w b) = length (array_of w (C.z h))) →
  defined_at f (C.model_time h + dt) = true →
  ∃ w' target,
    C.run_one_step dt (mkState h w) = (Return tt, mkState (C.advance_time dt h) w')
    ∧ interp1d_call f (C.model_time h + dt) = Return target
    ∧ (∀ i, C.nodes_to_lower h !! i = Some true →
         ∃ zv', array_of w' (C.z h) !! i = Some zv' ∧ (zv' == target)%Q)
    ∧ (∀ a i, C.nodes_to_lower h !! i ≠ Some true →
         array_of w' a !! i = array_of w a !! i).
Proof.
  intros Hobj Hp Hlen Hb Hdef.
  destruct (C_history_step_total dt h w f Hobj Hlen Hb Hdef)
    as (w' & target & Hstep & Hcall & Htouch & Hval).
  exists w', target. split_and!; try done.
  - intros i Hm.
    destruct (lookup_lt_is_Some_2 (array_of w (C.z h)) i) as [zv Hz].
    { rewrite <- Hlen. apply lookup_lt_is_Some. eauto. }
    destruct (Hval i zv Hm Hz) as (zv' & Hz' & Hq).
    exists zv'. split; [done|]. rewrite Hq, Hp. ring.
  - intros a i Hi. by apply (touches_entries _ _ _ _ Htouch).
Qed.

(** X6: with prefactor -1 (the handler of the core nodes) a history-mode
    step whose new time is inside the table returns, when the mask is as
    long as the elevation array and a bedrock field is a separate array of
    that length, and moves every node of the mask away from the
    interpolated elevation of the new time: its distance to it doubles. *)
Theorem closed_history_step_doubles
    (dt : Q) (h : C.Handler) (w : World) (f : list (Q * Q)) :
  C.outlet_elevation_obj h = Some f →
  C.prefactor h = (-1)%Q →
  length (C.nodes_to_lower h) = length (array_of w (C.z h)) →
  (∀ b, bedrock w = Some b →
        b ≠ C.z h ∧ length (array_of w b) = length (array_of w (C.z h))) →
  defined_at f (C.model_time h + dt) = true →
  ∃ w' target,
    C.run_one_step dt (mkState h w) = (Return tt, mkState (C.advance_time dt h) w')
    ∧ interp1d_call f (C.model_time h + dt) = Return target
    ∧ (∀ i zv, C.nodes_to_lower h !! i = Some true →
         array_of w (C.z h) !! i = Some zv →
         ∃ zv', array_of w' (C.z h) !! i = Some zv'
                ∧ (zv' - target == 2 * (zv - target))%Q).
Proof.
  intros Hobj Hp Hlen Hb Hdef.
  destruct (C_history_step_total dt h w f Hobj Hlen Hb Hdef)
    as (w' & target & Hstep & Hcall & Htouch & Hval).
  exists w', target. split_and!; try done.
  intros i zv Hm Hz.
  destruct (Hval i zv Hm Hz) as (zv' & Hz' & Hq).
  exists zv'. split; [done|]. rewrite Hq, Hp. ring.
Qed.

(** X7: a history-mode step of the multi-node handler whose new time is
    outside the table raises ValueError with every array as it was, but
    with the clock already moved on. *)
Theorem closed_history_outside_table
    (dt : Q) (h : C.Handler) (w : World) (f : list (Q * Q)) :
  C.outlet_elevation_obj h = Some f →
  length (C.nodes_to_lower h) = length (array_of w (C.z h)) →
  defined_at f (C.model_time h + dt) = false →
  C.run_one_step dt (mkState h w) = (Raise ValueError, mkState (C.advance_time dt h) w).
Proof.
  unfold defined_at. intros Hobj Hlen Hdef. apply wp_outcome.
  unfold C.run_one_step. wp_run; simplify_eq/=; same_lhs; try done.
  all: try match goal with
           | H : interp1d_call _ _ = Return _ |- _ => by rewrite H in Hdef
           end.
  split; [|done]. f_equal. by eapply interp1d_call_raises.
Qed.

(** X8: a step of the multi-node handler, returning or raising, leaves the
    grid and the files as they were, changes no array other than those of
    the elevation and bedrock fields, changes no entry outside the mask,
    resizes nothing, and changes nothing of the handler but its clock. *)
Theorem closed_step_frame (dt : Q) (s : State C.Handler) :
  topography (world s) = Some (C.z (self s)) →
  grid (world (C.run_one_step dt s).2) = grid (world s)
  ∧ files (world (C.run_one_step dt s).2) = files (world s)
  ∧ (∀ a, topography (world s) ≠ Some a → bedrock (world s) ≠ Some a →
       arrays (world (C.run_one_step dt s).2) !! a = arrays (world s) !! a)
  ∧ (∀ a i, C.nodes_to_lower (self s) !! i ≠ Some true →
       array_of (world (C.run_one_step dt s).2) a !! i = array_of (world s) a !! i)
  ∧ (∀ a, length (array_of (world (C.run_one_step dt s).2) a)
          = length (array_of (world s) a))
  ∧ self (C.run_one_step dt s).2 = C.advance_time dt (self s).
Proof.
  intros Htopo.
  destruct (C_step_invariant dt s) as (Ht & Hself).
  destruct Ht as [Hg Hf Hlen Harr Hent].
  split_and!; try done.
  intros a Ha Hb. apply Harr. intros [->|Hb']; [by rewrite Htopo in Ha|done].
Qed.


Lemma in_range_after_affine k s f t dts :
  in_range_after (lift_knot k s <$> f) t dts = in_range_after f t dts.
Proof.
  revert t. induction dts as [|dt dts IH]; intros t; simpl; [done|].
  by rewrite defined_at_affine, IH.
Qed.

(** The multi-node constructor in history mode with an end elevation, on
    a readable table. *)
Lemma C_init_history (w : World) (a : loc) (modify_closed_nodes : bool)
    (path : string) (rows : list (Q * Q)) (e : Q) :
  topography w = Some a →
  length (status_at_node (grid w)) = length (array_of w a) →
  files w !! path = Some (Table rows) →
  (2 ≤ length rows)%nat →
  let mask :=
    if modify_closed_nodes
    then map (λ s, negb (s =? 0)%Z) (status_at_node (grid w))
    else map (λ s, (s =? 0)%Z) (status_at_node (grid w)) in
  let start := mean (select mask (array_of w a)) in
  C.__init__ modify_closed_nodes None (Some path) (Some e) w
  = (Return (C.mkHandler 0 modify_closed_nodes a mask
       (if modify_closed_nodes then 1%Q else (-1)%Q) None
       (Some (lift_knot
                (Qabs (start - e) / Qabs (hd 0 rows.*2 - List.last rows.*2 0))%Q
                start <$> interp1d rows.*1 rows.*2))), w).
Proof.
  intros Htopo Hlen Hfile Hrows mask start. apply wp_outcome.
  unfold C.__init__, topography in *. wp_run; simplify_eq; try done.
  all: try (split; [|done]; do 3 f_equal; apply interp1d_affine).
  all: subst mask; destruct modify_closed_nodes; rewrite length_map in *; done.
Qed.

(** Several history-mode steps of the handler of the closed nodes. *)
Lemma C_history_steps f dts : ∀ (h : C.Handler) (w : World),
  C.outlet_elevation_obj h = Some f →
  C.prefactor h = 1%Q →
  length (C.nodes_to_lower h) = length (array_of w (C.z h)) →
  (∀ b, bedrock w = Some b →
        b ≠ C.z h ∧ length (array_of w b) = length (array_of w (C.z h))) →
  in_range_after f (C.model_time h) dts = true →
  ∃ s, run_steps C.run_one_step dts (mkState h w) = (Return tt, s)
    ∧ grid (world s) = grid w
    ∧ (∀ a, length (array_of (world s) a) = length (array_of w a))
    ∧ (∀ a i, C.nodes_to_lower h !! i ≠ Some true →
         array_of (world s) a !! i = array_of w a !! i)
    ∧ (dts ≠ [] →
       ∃ target, interp1d_call f (elapsed (C.model_time h) dts) = Return target
         ∧ ∀ i, C.nodes_to_lower h !! i = Some true →
             ∃ zv, array_of (world s) (C.z h) !! i = Some zv ∧ (zv == target)%Q).
Proof.
  induction dts as [|dt dts IH]; intros h w Hobj Hp Hlen Hb Hin.
  - exists (mkState h w). by split_and!.
  - simpl in Hin. apply andb_prop in Hin as [Hdef Hin].
    destruct (C_history_step_total dt h w f Hobj Hlen Hb Hdef)
      as (w1 & target & Hstep & Hcall & Htouch & Hval).
    destruct Htouch as [Hg _ Hl _ Hent].
    destruct (IH (C.advance_time dt h) w1) as (s & Hrun & Hgs & Hls & Hes & Hlast);
      try done.
    { simpl. by rewrite !Hl. }
    { simpl. intros b Hbed. unfold bedrock in *. rewrite Hg in Hbed.
      rewrite !Hl. by apply Hb. }
    simpl in Hgs, Hls, Hes, Hlast.
    exists s. split_and!.
    + rewrite <- Hrun. by apply run_steps_cons.
    + by rewrite Hgs.
    + intros a. by rewrite Hls.
    + intros a i Hi. by rewrite Hes, Hent.
    + intros _. destruct dts as [|dt' dts'].
      * simpl in Hrun. injection Hrun as <-. simpl.
        exists target. split; [done|]. intros i Hm.
        destruct (lookup_lt_is_Some_2 (array_of w (C.z h)) i) as [zv Hz].
        { rewrite <- Hlen. apply lookup_lt_is_Some. eauto. }
        destruct (Hval i zv Hm Hz) as (zv' & Hz' & Hq).
        exists zv'. split; [done|]. rewrite Hq, Hp. ring.
      * by apply Hlast.
Qed.

(** The mask and the prefactor that the multi-node constructor computes. *)
Lemma C_init_mask b rate path mee w h w' :
  C.__init__ b rate path mee w = (Return h, w') →
  C.nodes_to_lower h
  = map (λ st, if b then negb (st =? 0)%Z else (st =? 0)%Z) (status_at_node (grid w))
  ∧ C.prefactor h = (if b then 1 else -1)%Q.
Proof.
  assert (wp (C.__init__ b rate path mee)
            (λ r w', ∀ h, r = Return h →
               C.nodes_to_lower h
               = map (λ st, if b then negb (st =? 0)%Z else (st =? 0)%Z)
                     (status_at_node (grid w))
               ∧ C.prefactor h = (if b then 1 else -1)%Q) w) as Hwp.
  { unfold C.__init__. wp_run; intros ? ?; simplify_eq; simpl; by destruct b. }
  intros E. unfold wp in Hwp. rewrite E in Hwp. by apply Hwp.
Qed.

(** X9: the two settings of [modify_closed_nodes] split the nodes between
    them: with [True] the handler takes every node whose status is not
    core (open boundary nodes included) and prefactor 1, with [False]
    exactly the core nodes and prefactor -1; either mask has one entry per
    node. *)
Theorem closed_init_masks
    (w w1 w0 : World) (rate1 rate0 : option Q) (path1 path0 : option string)
    (mee1 mee0 : option Q) (h1 h0 : C.Handler) :
  C.__init__ true rate1 path1 mee1 w = (Return h1, w1) →
  C.__init__ false rate0 path0 mee0 w = (Return h0, w0) →
  C.prefactor h1 = 1%Q ∧ C.prefactor h0 = (-1)%Q
  ∧ length (C.nodes_to_lower h1) = length (status_at_node (grid w))
  ∧ length (C.nodes_to_lower h0) = length (status_at_node (grid w))
  ∧ (∀ i st, status_at_node (grid w) !! i = Some st →
       C.nodes_to_lower h1 !! i = Some (negb (st =? 0)%Z)
       ∧ C.nodes_to_lower h0 !! i = Some (st =? 0)%Z).
Proof.
  intros [Hm1 Hp1]%C_init_mask [Hm0 Hp0]%C_init_mask.
  rewrite Hm1, Hm0, !length_map. split_and!; try done.
  intros i st Hst. by rewrite !list_lookup_fmap, Hst.
Qed.

Lemma closed_init_masks_witness :
  ∃ h1 h0,
    C.__init__ true (Some (-1 # 10)%Q) None None raster5_with_ramp
    = (Return h1, raster5_with_ramp)
    ∧ C.__init__ false None (Some "ramp.txt") (Some (-20)%Q) raster5_with_ramp
      = (Return h0, raster5_with_ramp)
    ∧ C.prefactor h1 = 1%Q ∧ C.prefactor h0 = (-1)%Q
    ∧ length (C.nodes_to_lower h1) = length (status_at_node (grid raster5_with_ramp))
    ∧ length (C.nodes_to_lower h0) = length (status_at_node (grid raster5_with_ramp))
    ∧ (∀ i st, status_at_node (grid raster5_with_ramp) !! i = Some st →
         C.nodes_to_lower h1 !! i = Some (negb (st =? 0)%Z)
         ∧ C.nodes_to_lower h0 !! i = Some (st =? 0)%Z).
Proof.
  eexists _, _.
  split; [vm_compute; reflexivity|]. split; [vm_compute; reflexivity|].
  apply (closed_init_masks raster5_with_ramp raster5_with_ramp raster5_with_ramp
           (Some (-1 # 10)%Q) None None (Some "ramp.txt") None (Some (-20)%Q)).
  - vm_compute. reflexivity.
  - vm_compute. reflexivity.
Defined.

(** X10: a handler of the closed nodes built with [model_end_elevation = e]
    starts from the mean elevation of its nodes.  On a table with
    ascending times that starts at change 0 and whose last change is
    nonzero and points from that mean towards [e], steps that stay inside
    the table and add up to its last time all return, leave every node
    whose status is not core at [e], and leave the core nodes alone. *)
Theorem closed_history_rescaled_end
    (w : World) (a : loc) (path : string) (rows : list (Q * Q)) (e : Q)
    (dts : list Q) :
  let mask := map (λ st, negb (st =? 0)%Z) (status_at_node (grid w)) in
  let start := mean (select mask (array_of w a)) in
  topography w = Some a →
  length (status_at_node (grid w)) = length (array_of w a) →
  (0 < count mask)%nat →
  files w !! path = Some (Table rows) →
  (2 ≤ length rows)%nat →
  (∀ b, bedrock w = Some b →
        b ≠ a ∧ length (array_of w b) = length (array_of w a)) →
  ascending rows.*1 = true →
  (hd 0 rows.*2 == 0)%Q →
  ¬ (List.last rows.*2 0 == 0)%Q →
  (0 <= (e - start) * List.last rows.*2 0)%Q →
  dts ≠ [] →
  in_range_after (interp1d rows.*1 rows.*2) 0 dts = true →
  (elapsed 0 dts == List.last rows.*1 0)%Q →
  ∃ h s,
    C.__init__ true None (Some path) (Some e) w = (Return h, w)
    ∧ run_steps C.run_one_step dts (mkState h w) = (Return tt, s)
    ∧ (∀ i st, status_at_node (grid w) !! i = Some st → st ≠ 0%Z →
         ∃ z1, array_of (world s) a !! i = Some z1 ∧ (z1 == e)%Q)
    ∧ (∀ i, status_at_node (grid w) !! i = Some 0%Z →
         array_of (world s) a !! i = array_of w a !! i).
Proof.
  intros mask start Htopo Hlen _ Hfile Hrows Hbed Hasc Hc0 Hcl Hdir Hdts Hin Hend.
  pose proof (C_init_history w a true path rows e Htopo Hlen Hfile Hrows) as Hinit.
  simpl in Hinit. fold mask in Hinit. fold start in Hinit.
  set (sf := (Qabs (start - e) / Qabs (hd 0 rows.*2 - List.last rows.*2 0))%Q) in *.
  set (f := lift_knot sf start <$> interp1d rows.*1 rows.*2) in *.
  set (h := C.mkHandler 0 true a mask 1 None (Some f)) in *.
  rewrite <- (in_range_after_affine sf start) in Hin. fold f in Hin.
  destruct (C_history_steps f dts h w) as (s & Hrun & _ & _ & Hother & Hlast);
    try done.
  { simpl. subst mask. by rewrite length_map. }
  destruct (Hlast Hdts) as (target & Hcall & Hval). simpl in Hcall, Hval, Hother.
  pose proof (interp1d_call_affine sf start (interp1d rows.*1 rows.*2)
                (elapsed 0 dts)) as Haff.
  assert (interp1d_call (interp1d rows.*1 rows.*2) (elapsed 0 dts)
          = Return (List.last rows.*2 0%Q)) as Hraw.
  { rewrite (interp1d_ascending rows Hasc).
    apply interp1d_call_last; try done. intros ->. simpl in Hrows. lia. }
  rewrite Hraw in Haff. destruct Haff as (v & Hv & Hvc). fold f in Hv.
  rewrite Hcall in Hv. injection Hv as <-. unfold affine in Hvc.
  pose proof (rescale_hits_end start e _ _ Hc0 Hcl Hdir) as Hhit. fold sf in Hhit.
  exists h, s. split_and!; try done.
  - intros i st Hst Hne.
    destruct (Hval i) as (zv & Hz & Hq).
    { subst mask. rewrite list_lookup_fmap, Hst. simpl.
      by destruct (Z.eqb_spec st 0). }
    exists zv. split; [done|]. rewrite Hq, Hvc. exact Hhit.
  - intros i Hst. apply Hother. subst mask. rewrite list_lookup_fmap, Hst. done.
Qed.

Lemma closed_history_step_levels_witness :
  let h := C.mkHandler 0 true 1%positive
             (map (λ st, negb (st =? 0)%Z) raster5_status) 1 None (Some ramp) in
  ∃ w' target,
    C.run_one_step 5 (mkState h layered5) = (Return tt, mkState (C.advance_time 5 h) w')
    ∧ interp1d_call ramp (0 + 5) = Return target
    ∧ (∀ i, C.nodes_to_lower h !! i = Some true →
         ∃ zv', array_of w' 1%positive !! i = Some zv' ∧ (zv' == target)%Q)
    ∧ (∀ a i, C.nodes_to_lower h !! i ≠ Some true →
         array_of w' a !! i = array_of layered5 a !! i).
Proof.
  intros h. apply (closed_history_step_levels 5 h layered5 ramp).
  - reflexivity.
  - reflexivity.
  - reflexivity.
  - intros b Hb. vm_compute in Hb. injection Hb as <-. split; [discriminate|reflexivity].
  - reflexivity.
Defined.

Lemma closed_history_step_doubles_witness :
  let h := C.mkHandler 0 false 1%positive
             (map (λ st, (st =? 0)%Z) raster5_status) (-1) None (Some ramp) in
  ∃ w' target,
    C.run_one_step 5 (mkState h layered5) = (Return tt, mkState (C.advance_time 5 h) w')
    ∧ interp1d_call ramp (0 + 5) = Return target
    ∧ (∀ i zv, C.nodes_to_lower h !! i = Some true →
         array_of layered5 1%positive !! i = Some zv →
         ∃ zv', array_of w' 1%positive !! i = Some zv'
                ∧ (zv' - target == 2 * (zv - target))%Q).
Proof.
  intros h. apply (closed_history_step_doubles 5 h layered5 ramp).
  - reflexivity.
  - reflexivity.
  - reflexivity.
  - intros b Hb. vm_compute in Hb. injection Hb as <-. split; [discriminate|reflexivity].
  - reflexivity.
Defined.

Lemma closed_history_outside_table_witness :
  let h := C.mkHandler 0 true 1%positive
             (map (λ st, negb (st =? 0)%Z) raster5_status) 1 None (Some ramp) in
  C.run_one_step 15 (mkState h layered5)
  = (Raise ValueError, mkState (C.advance_time 15 h) layered5).
Proof.
  intros h. apply (closed_history_outside_table 15 h layered5 ramp); reflexivity.
Defined.

Lemma closed_step_frame_witness :
  let s := mkState (C.mkHandler 0 true 1%positive
                      (map (λ st, negb (st =? 0)%Z) raster5_status) 1 None (Some ramp))
                   layered5 in
  grid (world (C.run_one_step 5 s).2) = grid (world s)
  ∧ files (world (C.run_one_step 5 s).2) = files (world s)
  ∧ (∀ a, topography (world s) ≠ Some a → bedrock (world s) ≠ Some a →
       arrays (world (C.run_one_step 5 s).2) !! a = arrays (world s) !! a)
  ∧ (∀ a i, C.nodes_to_lower (self s) !! i ≠ Some true →
       array_of (world (C.run_one_step 5 s).2) a !! i = array_of (world s) a !! i)
  ∧ (∀ a, length (array_of (world (C.run_one_step 5 s).2) a)
          = length (array_of (world s) a))
  ∧ self (C.run_one_step 5 s).2 = C.advance_time 5 (self s).
Proof.
  intros s. apply (closed_step_frame 5 s). reflexivity.
Defined.

Lemma closed_history_rescaled_end_witness :
  ∃ h s,
    C.__init__ true None (Some "ramp.txt") (Some (-20)%Q) raster5_with_ramp
    = (Return h, raster5_with_ramp)
    ∧ run_steps C.run_one_step [5; 5]%Q (mkState h raster5_with_ramp) = (Return tt, s)
    ∧ (∀ i st, status_at_node (grid raster5_with_ramp) !! i = Some st → st ≠ 0%Z →
         ∃ z1, array_of (world s) 1%positive !! i = Some z1 ∧ (z1 == -20)%Q)
    ∧ (∀ i, status_at_node (grid raster5_with_ramp) !! i = Some 0%Z →
         array_of (world s) 1%positive !! i = array_of raster5_with_ramp 1%positive !! i).
Proof.
  apply (closed_history_rescaled_end raster5_with_ramp 1%positive "ramp.txt" ramp
           (-20)%Q [5; 5]%Q).
  - reflexivity.
  - reflexivity.
  - vm_compute. lia.
  - reflexivity.
  - simpl. lia.
  - intros b Hb. vm_compute in Hb. discriminate Hb.
  - reflexivity.
  - reflexivity.
  - vm_compute. intros H. discriminate H.
  - vm_compute. intros H. discriminate H.
  - discriminate.
  - vm_compute. reflexivity.
  - vm_compute. reflexivity.
Defined.

(** ** Rules for whole arrays and index arrays *)

Lemma wp_setslice a vals (Q : outcome unit → World → Prop) w :
  (length vals = length (array_of w a) → Q (Return tt) (store a vals w)) →
  (∀ v, vals = [v] → length (array_of w a) ≠ 1%nat →
        Q (Return tt) (store a (replicate (length (array_of w a)) v) w)) →
  (length vals ≠ length (array_of w a) → length vals ≠ 1%nat → Q (Raise ValueError) w) →
  wp (setslice a vals) Q w.
Proof.
  intros H1 H2 H3. unfold wp, setslice. case_decide; [by apply H1|].
  destruct vals as [|v [|v' vals]]; simpl in *.
  - by apply H3.
  - apply H2; [done|]. congruence.
  - by apply H3.
Qed.

Lemma wp_getindices a idx (Q : outcome (list Q) → World → Prop) w :
  (∀ vs, mapM (λ i, array_of w a !! i) idx = Some vs → Q (Return vs) w) →
  (mapM (λ i, array_of w a !! i) idx = None → Q (Raise IndexError) w) →
  wp (getindices a idx) Q w.
Proof.
  intros H1 H2. unfold wp, getindices.
  destruct (mapM _ idx) as [vs|]; simpl; auto.
Qed.

Ltac wp_array_step :=
  lazymatch goal with
  | |- wp (getarray _) _ _ => apply wp_gets; simpl
  | |- wp (setslice _ _) _ _ =>
      apply wp_setslice; [intros ?|intros ? ? ?|intros ? ?]; simpl
  | |- wp (setmask_scalar _ _ _) _ _ => unfold setmask_scalar
  | |- wp (getindices _ _) _ _ =>
      apply wp_getindices; [intros ? ?|intros ?]; simpl
  | _ => wp_step
  end.

Ltac wp_array_run := repeat wp_array_step.

(** ** [BasicDdSt.update_threshold_field] *)

(** Writing one scalar where a predicate holds. *)
Lemma assign_replicate (p : Q → bool) (v : Q) (l : list Q) :
  assign (map p l) (replicate (count (map p l)) v) l
  = map (λ x, if p x then v else x) l.
Proof.
  induction l as [|x l IH]; simpl; [done|].
  destruct (p x); simpl; by rewrite IH.
Qed.

Lemma floored_max tv k d : (floored tv k d == Qmax tv (tv - k * d))%Q.
Proof.
  unfold floored, Qlt_bool.
  destruct (Qle_bool tv (tv - k * d)) eqn:E; simpl.
  - apply Qle_bool_iff in E. symmetry. by apply Q.max_r.
  - assert (¬ (tv <= tv - k * d)%Q) as Hn.
    { intros H. apply Qle_bool_iff in H. congruence. }
    symmetry. apply Q.max_l. lra.
Qed.

(** The threshold array after any run that returns. *)
Lemma D_update_threshold (m : D.Model) (w : World) :
  wp (D.update_threshold_field m)
     (λ r w', r = Return tt →
        ∃ ts, array_of w' (D.threshold m)
              = map (λ t, if Qlt_bool t (D.threshold_value m)
                          then D.threshold_value m else t) ts) w.
Proof.
  unfold D.update_threshold_field. wp_array_run; try done.
  all: intros _; eexists; rewrite array_of_store_eq; apply assign_replicate.
Qed.

(** X11: whenever [update_threshold_field] returns, no entry of the
    threshold array is below [threshold_value], whatever the arrays held
    and however the fields are bound. *)
Theorem threshold_never_below_value (m : D.Model) (w w' : World) (j : nat) (v : Q) :
  D.update_threshold_field m w = (Return tt, w') →
  array_of w' (D.threshold m) !! j = Some v →
  (D.threshold_value m <= v)%Q.
Proof.
  intros Hrun Hv.
  pose proof (D_update_threshold m w) as Hwp. unfold wp in Hwp.
  rewrite Hrun in Hwp. destruct (Hwp eq_refl) as [ts Hts]. simpl in Hts.
  rewrite Hts, list_lookup_fmap in Hv.
  destruct (ts !! j) as [t|]; simplify_eq/=.
  unfold Qlt_bool. destruct (Qle_bool (D.threshold_value m) t) eqn:E; simpl.
  - by apply Qle_bool_iff.
  - apply Qle_refl.
Qed.

(** The run on fields of one size, with the threshold array apart from
    the array of cumulative change. *)
Lemma D_update_run (m : D.Model) (w : World) (c i : loc) :
  at_node (grid w) !! "cumulative_elevation_change" = Some c →
  at_node (grid w) !! "initial_topographic__elevation" = Some i →
  length (array_of w (D.z m)) = length (array_of w i) →
  length (array_of w c) = length (array_of w i) →
  length (array_of w (D.threshold m)) = length (array_of w i) →
  c ≠ D.threshold m →
  let change := zip_with Qminus (array_of w (D.z m)) (array_of w i) in
  D.update_threshold_field m w
  = (Return tt,
     store (D.threshold m)
       (map (floored (D.threshold_value m) (D.thresh_change_per_depth m)) change)
       (store (D.threshold m)
          (map (λ d, D.threshold_value m - D.thresh_change_per_depth m * d)%Q change)
          (store c change w))).
Proof.
  intros Hc Hi Hz Hcl Htl Hne change.
  assert (length change = length (array_of w i)) as Hchange.
  { subst change. rewrite length_zip_with. lia. }
  unfold D.update_threshold_field, mbind, M_bind, field, getarray, gets, lift_outcome.
  rewrite Hc, Hi. unfold broadcast. rewrite decide_True by done. fold change.
  unfold setslice at 1. rewrite decide_True by congruence.
  rewrite array_of_store_eq.
  unfold setslice. rewrite array_of_store_ne by done.
  rewrite decide_True by (rewrite length_map; congruence).
  rewrite array_of_store_eq.
  unfold setmask_scalar, setmask. rewrite array_of_store_eq.
  rewrite decide_True by (by rewrite length_map).
  rewrite decide_True by (by rewrite length_replicate).
  rewrite assign_replicate, map_map. done.
Qed.

Lemma store_store_eq a l l' w : store a l (store a l' w) = store a l w.
Proof. unfold store. simpl. f_equal. apply insert_insert_eq. Qed.

Lemma store_store_ne a b l l' w :
  a ≠ b → store a l (store b l' w) = store b l' (store a l w).
Proof. intros H. unfold store. simpl. f_equal. by apply insert_insert_ne. Qed.

(** X12: on fields of one size, with the threshold array apart from the
    array of cumulative change, [update_threshold_field] returns; it sets
    the cumulative change of every node to its elevation minus its initial
    elevation, and the threshold to the larger of [threshold_value] and
    [threshold_value - thresh_change_per_depth * change]. *)
Theorem threshold_field_values (m : D.Model) (w : World) (c i : loc) :
  at_node (grid w) !! "cumulative_elevation_change" = Some c →
  at_node (grid w) !! "initial_topographic__elevation" = Some i →
  length (array_of w (D.z m)) = length (array_of w i) →
  length (array_of w c) = length (array_of w i) →
  length (array_of w (D.threshold m)) = length (array_of w i) →
  c ≠ D.threshold m →
  ∃ w', D.update_threshold_field m w = (Return tt, w')
    ∧ ∀ j zj ij,
        array_of w (D.z m) !! j = Some zj → array_of w i !! j = Some ij →
        array_of w' c !! j = Some (zj - ij)%Q
        ∧ ∃ v, array_of w' (D.threshold m) !! j = Some v
               ∧ (v == Qmax (D.threshold_value m)
                         (D.threshold_value m
                          - D.thresh_change_per_depth m * (zj - ij)))%Q.
Proof.
  intros Hc Hi Hz Hcl Htl Hne.
  eexists. split; [by apply (D_update_run m w c i)|].
  intros j zj ij Hzj Hij.
  rewrite array_of_store_eq, store_store_eq, array_of_store_ne, array_of_store_eq by done.
  rewrite list_lookup_fmap, lookup_zip_with, Hzj, Hij. simpl.
  split; [done|]. eexists. split; [done|]. apply floored_max.
Qed.

(** X13: with a non-negative [thresh_change_per_depth], a node cut below
    its initial elevation gets [threshold_value] plus
    [thresh_change_per_depth] times the depth of the cut, and a node at or
    above its initial elevation gets [threshold_value]. *)
Theorem threshold_grows_with_incision
    (m : D.Model) (w : World) (c i : loc) (j : nat) (zj ij : Q) :
  at_node (grid w) !! "cumulative_elevation_change" = Some c →
  at_node (grid w) !! "initial_topographic__elevation" = Some i →
  length (array_of w (D.z m)) = length (array_of w i) →
  length (array_of w c) = length (array_of w i) →
  length (array_of w (D.threshold m)) = length (array_of w i) →
  c ≠ D.threshold m →
  (0 <= D.thresh_change_per_depth m)%Q →
  array_of w (D.z m) !! j = Some zj →
  array_of w i !! j = Some ij →
  ∃ w' v, D.update_threshold_field m w = (Return tt, w')
    ∧ array_of w' (D.threshold m) !! j = Some v
    ∧ ((zj <= ij)%Q →
       (v == D.threshold_value m + D.thresh_change_per_depth m * (ij - zj))%Q)
    ∧ ((ij <= zj)%Q → (v == D.threshold_value m)%Q).
Proof.
  intros Hc Hi Hz Hcl Htl Hne Hk Hzj Hij.
  eexists _, _. split; [by apply (D_update_run m w c i)|].
  rewrite array_of_store_eq, list_lookup_fmap, lookup_zip_with, Hzj, Hij. simpl.
  split; [done|].
  set (tv := D.threshold_value m) in *. set (k := D.thresh_change_per_depth m) in *.
  unfold floored, Qlt_bool.
  destruct (Qle_bool tv (tv - k * (zj - ij))) eqn:E; simpl.
  - apply Qle_bool_iff in E. split; intros H; [ring|nra].
  - assert (¬ (tv <= tv - k * (zj - ij))%Q) as Hn.
    { intros H. apply Qle_bool_iff in H. congruence. }
    split; intros H; [nra|reflexivity].
Qed.

(** X14: on fields of one size and arrays that are all distinct, a second
    call of [update_threshold_field] changes nothing. *)
Theorem threshold_field_idempotent (m : D.Model) (w : World) (c i : loc) :
  at_node (grid w) !! "cumulative_elevation_change" = Some c →
  at_node (grid w) !! "initial_topographic__elevation" = Some i →
  length (array_of w (D.z m)) = length (array_of w i) →
  length (array_of w c) = length (array_of w i) →
  length (array_of w (D.threshold m)) = length (array_of w i) →
  c ≠ D.threshold m → c ≠ D.z m → c ≠ i → D.threshold m ≠ D.z m → D.threshold m ≠ i →
  ∃ w', D.update_threshold_field m w = (Return tt, w')
        ∧ D.update_threshold_field m w' = (Return tt, w').
Proof.
  intros Hc Hi Hz Hcl Htl Hct Hcz Hci Htz Hti.
  pose proof (D_update_run m w c i Hc Hi Hz Hcl Htl Hct) as Hrun.
  simpl in Hrun. rewrite store_store_eq in Hrun.
  set (change := zip_with Qminus (array_of w (D.z m)) (array_of w i)) in *.
  set (T := map _ change) in *.
  assert (length change = length (array_of w i)) as Hchange.
  { subst change. rewrite length_zip_with. lia. }
  set (w' := store (D.threshold m) T (store c change w)) in *.
  assert (array_of w' (D.z m) = array_of w (D.z m)) as Ez.
  { subst w'. by rewrite !array_of_store_ne. }
  assert (array_of w' i = array_of w i) as Ei.
  { subst w'. by rewrite !array_of_store_ne. }
  exists w'. split; [done|].
  rewrite (D_update_run m w' c i); try done.
  - simpl. rewrite Ez, Ei. fold change. fold T. rewrite store_store_eq.
    subst w'. rewrite (store_store_ne c (D.threshold m)) by done.
    by rewrite !store_store_eq.
  - by rewrite Ez, Ei.
  - subst w'. rewrite Ei, array_of_store_ne, array_of_store_eq; done.
  - subst w'. rewrite Ei, array_of_store_eq. subst T. by rewrite length_map.
Qed.

(** X15: without the field of cumulative change or the field of initial
    elevation, [update_threshold_field] raises KeyError and changes
    nothing. *)
Theorem threshold_field_requires_fields (m : D.Model) (w : World) :
  at_node (grid w) !! "cumulative_elevation_change" = None
  ∨ at_node (grid w) !! "initial_topographic__elevation" = None →
  D.update_threshold_field m w = (Raise KeyError, w).
Proof.
  intros H. unfold D.update_threshold_field, mbind, M_bind, field, getarray, gets.
  destruct (at_node (grid w) !! "cumulative_elevation_change"); simpl; [|done].
  destruct H as [H|H]; [done|]. by rewrite H.
Qed.

Lemma touches_store_whole (A : loc → Prop) a l w :
  A a → length l = length (array_of w a) →
  touches A (λ _, True) w (store a l w).
Proof.
  intros HA Hl. split; try done.
  - intros a'. rewrite array_of_store. by case_decide; subst.
  - intros a' Ha'. simpl. apply lookup_insert_ne. by intros ->.
Qed.

Ltac touches_whole :=
  lazymatch goal with
  | |- touches _ _ ?w ?w => apply touches_refl
  | |- touches _ _ ?w (store _ _ ?w1) =>
      apply (touches_trans _ _ w w1);
      [touches_whole
      |apply touches_store_whole;
       [auto|rewrite ?length_assign, ?length_replicate; first [done|congruence]]]
  end.

(** X16: however [update_threshold_field] ends, it leaves the grid and the
    files as they were, resizes no array, and changes no array other than
    the threshold array and the array of cumulative change. *)
Theorem threshold_field_frame (m : D.Model) (w : World) (a : loc) :
  let w' := (D.update_threshold_field m w).2 in
  grid w' = grid w ∧ files w' = files w
  ∧ length (array_of w' a) = length (array_of w a)
  ∧ (a ≠ D.threshold m →
     at_node (grid w) !! "cumulative_elevation_change" ≠ Some a →
     arrays w' !! a = arrays w !! a).
Proof.
  assert (wp (D.update_threshold_field m)
            (λ _ w', touches (λ a, a = D.threshold m
                                   ∨ at_node (grid w) !! "cumulative_elevation_change"
                                     = Some a)
                             (λ _, True) w w') w) as Hwp.
  { unfold D.update_threshold_field. wp_array_run; touches_whole. }
  intros w'. destruct Hwp as [Hg Hf Hl Ha _]. split_and!; try done.
  intros H1 H2. apply Ha. by intros [?|?].
Qed.

Lemma threshold_never_below_value_witness :
  let m := D.mkModel 1%positive 4%positive 1 (1 # 2) in
  ∃ w' v, D.update_threshold_field m eroded34 = (Return tt, w')
    ∧ array_of w' 4%positive !! 6%nat = Some v
    ∧ (1 <= v)%Q.
Proof.
  intros m. eexists _, _.
  split; [vm_compute; reflexivity|]. split; [vm_compute; reflexivity|].
  eapply (threshold_never_below_value m eroded34 _ 6).
  - vm_compute. reflexivity.
  - vm_compute. reflexivity.
Defined.

Lemma threshold_field_values_witness :
  let m := D.mkModel 1%positive 4%positive 1 (1 # 2) in
  ∃ w', D.update_threshold_field m eroded34 = (Return tt, w')
    ∧ ∀ j zj ij,
        array_of eroded34 1%positive !! j = Some zj →
        array_of eroded34 2%positive !! j = Some ij →
        array_of w' 3%positive !! j = Some (zj - ij)%Q
        ∧ ∃ v, array_of w' 4%positive !! j = Some v
               ∧ (v == Qmax 1 (1 - (1 # 2) * (zj - ij)))%Q.
Proof.
  intros m.
  apply (threshold_field_values m eroded34 3%positive 2%positive); done.
Defined.

Lemma threshold_grows_with_incision_witness :
  let m := D.mkModel 1%positive 4%positive 1 (1 # 2) in
  ∃ w' v, D.update_threshold_field m eroded34 = (Return tt, w')
    ∧ array_of w' 4%positive !! 5%nat = Some v
    ∧ ((-2 <= 0)%Q → (v == 1 + (1 # 2) * (0 - -2))%Q)
    ∧ ((0 <= -2)%Q → (v == 1)%Q).
Proof.
  intros m.
  apply (threshold_grows_with_incision m eroded34 3%positive 2%positive 5 (-2) 0);
    try done.
Defined.

Lemma threshold_field_idempotent_witness :
  let m := D.mkModel 1%positive 4%positive 1 (1 # 2) in
  ∃ w', D.update_threshold_field m eroded34 = (Return tt, w')
        ∧ D.update_threshold_field m w' = (Return tt, w').
Proof.
  intros m.
  apply (threshold_field_idempotent m eroded34 3%positive 2%positive); done.
Defined.

Lemma threshold_field_requires_fields_witness :
  let m := D.mkModel 1%positive 4%positive 1 (1 # 2) in
  D.update_threshold_field m bare5 = (Raise KeyError, bare5).
Proof.
  intros m. apply (threshold_field_requires_fields m bare5). by left.
Defined.

(** ** [BasicDdVs._calc_effective_drainage_area] *)

(** Index arrays: [put] and the core nodes. *)

Lemma length_put idx vals l : length (put idx vals l) = length l.
Proof.
  revert vals l. induction idx as [|i idx IH]; intros [|v vals] l; simpl; try done.
  by rewrite IH, length_insert.
Qed.

Lemma lookup_put_notin idx vals l j : j ∉ idx → put idx vals l !! j = l !! j.
Proof.
  revert vals l. induction idx as [|i idx IH]; intros [|v vals] l Hj; simpl; try done.
  apply not_elem_of_cons in Hj as [Hne Hj].
  rewrite IH by done. by apply list_lookup_insert_ne.
Qed.

Lemma lookup_put_in idx : ∀ vals l k j v,
  NoDup idx → idx !! k = Some j → vals !! k = Some v → (j < length l)%nat →
  put idx vals l !! j = Some v.
Proof.
  induction idx as [|i idx IH]; intros [|x vals] l [|k] j v Hnd Hi Hv Hlt;
    simplify_eq/=.
  - apply NoDup_cons in Hnd as [Hni _].
    rewrite lookup_put_notin by done. by apply list_lookup_insert_eq.
  - apply NoDup_cons in Hnd as [_ Hnd].
    apply (IH vals _ k); try done. by rewrite length_insert.
Qed.

Lemma elem_of_core_from status : ∀ i j,
  j ∈ core_from i status ↔ ∃ k, j = (i + k)%nat ∧ status !! k = Some 0%Z.
Proof.
  induction status as [|s status IH]; intros i j; simpl.
  - split; [by intros ?%elem_of_nil|by intros (k & _ & ?)].
  - destruct (Z.eqb_spec s 0) as [->|Hs].
    + rewrite elem_of_cons, IH. split.
      * intros [->|(k & -> & Hk)]; [exists 0%nat|exists (S k)]; split; try done; lia.
      * intros ([|k] & -> & Hk); [left; lia|right]. exists k. split; [lia|done].
    + rewrite IH. split.
      * intros (k & -> & Hk). exists (S k). split; [lia|done].
      * intros ([|k] & -> & Hk); simplify_eq/=. exists k. split; [lia|done].
Qed.

Lemma NoDup_core_from status : ∀ i, NoDup (core_from i status).
Proof.
  induction status as [|s status IH]; intros i; simpl; [constructor|].
  destruct (s =? 0)%Z; [|done].
  apply NoDup_cons. split; [|done].
  rewrite elem_of_core_from. intros (k & ? & _). lia.
Qed.

Lemma elem_of_core_nodes g j : j ∈ core_nodes g ↔ status_at_node g !! j = Some 0%Z.
Proof.
  unfold core_nodes. rewrite elem_of_core_from. split.
  - by intros (k & -> & Hk).
  - intros H. by exists j.
Qed.

Lemma touches_store_put (A : loc → Prop) a idx vals w :
  A a → touches A (λ j, j ∈ idx) w (store a (put idx vals (array_of w a)) w).
Proof.
  intros HA. split; try done.
  - intros a'. rewrite array_of_store. case_decide; subst; [apply length_put|done].
  - intros a' Ha'. simpl. apply lookup_insert_ne. by intros ->.
  - intros a' j Hj. rewrite array_of_store. case_decide; subst; [|done].
    by apply lookup_put_notin.
Qed.

(** X17: however [_calc_effective_drainage_area] ends, it leaves the grid
    and the files as they were, resizes nothing, changes no array other
    than [eff_area], and changes no entry of a node that is not core. *)
Theorem effective_area_frame (np_exp : Q → Q) (m : V.Model) (w : World) :
  let w' := (V._calc_effective_drainage_area np_exp m w).2 in
  grid w' = grid w ∧ files w' = files w
  ∧ (∀ a, length (array_of w' a) = length (array_of w a))
  ∧ (∀ a, a ≠ V.eff_area m → arrays w' !! a = arrays w !! a)
  ∧ (∀ a j, status_at_node (grid w) !! j ≠ Some 0%Z →
       array_of w' a !! j = array_of w a !! j).
Proof.
  assert (wp (V._calc_effective_drainage_area np_exp m)
            (λ _ w', touches (λ a, a = V.eff_area m)
                             (λ j, j ∈ core_nodes (grid w)) w w') w) as Hwp.
  { unfold V._calc_effective_drainage_area. wp_array_run; try apply touches_refl.
    unfold wp, setindices.
    repeat case_match; simpl; try apply touches_refl; by apply touches_store_put. }
  intros w'. destruct Hwp as [Hg Hf Hl Ha He]. split_and!; try done.
  intros a j Hj. apply He. by rewrite elem_of_core_nodes.
Qed.

(** The run when the three arrays have one entry per node. *)
Lemma V_calc_run (np_exp : Q → Q) (m : V.Model) (w : World) (area slope : loc) :
  at_node (grid w) !! "drainage_area" = Some area →
  at_node (grid w) !! "topographic__steepest_slope" = Some slope →
  length (array_of w area) = length (status_at_node (grid w)) →
  length (array_of w slope) = length (status_at_node (grid w)) →
  length (array_of w (V.eff_area m)) = length (status_at_node (grid w)) →
  ∃ w', V._calc_effective_drainage_area np_exp m w = (Return tt, w')
    ∧ ∀ j aj sj, status_at_node (grid w) !! j = Some 0%Z →
        array_of w area !! j = Some aj → array_of w slope !! j = Some sj →
        array_of w' (V.eff_area m) !! j
        = Some (aj * np_exp (- V.sat_param m * sj / aj))%Q.
Proof.
  intros Harea Hslope Hla Hls Hle.
  set (cores := core_nodes (grid w)).
  assert (∀ j, j ∈ cores → (j < length (status_at_node (grid w)))%nat) as Hlt.
  { intros j Hj%elem_of_core_nodes. apply lookup_lt_is_Some. eauto. }
  assert (∀ a, length (array_of w a) = length (status_at_node (grid w)) →
               ∃ vs, mapM (λ i, array_of w a !! i) cores = Some vs) as Hget.
  { intros a Hlen. apply mapM_is_Some, Forall_forall. intros j Hj. simpl.
    apply lookup_lt_is_Some. rewrite Hlen. by apply Hlt. }
  destruct (Hget area Hla) as [area_c Hac]. destruct (Hget slope Hls) as [slope_c Hsc].
  pose proof Hac as Fa. apply mapM_Some in Fa.
  pose proof Hsc as Fs. apply mapM_Some in Fs.
  set (vals := zip_with Qmult area_c
                 (map np_exp (zip_with Qdiv (map (Qmult (- V.sat_param m)) slope_c)
                                area_c))).
  assert (length vals = length cores) as Hvals.
  { subst vals. rewrite !length_zip_with, !length_map, length_zip_with, length_map.
    apply Forall2_length in Fa, Fs. lia. }
  exists (store (V.eff_area m) (put cores vals (array_of w (V.eff_area m))) w). split.
  - unfold V._calc_effective_drainage_area, mbind, M_bind, field, gets, getindices.
    rewrite Harea, Hslope. fold cores. rewrite Hac, Hsc, Hac. fold vals.
    unfold setindices. rewrite decide_True by done. rewrite decide_True; [done|].
    apply Forall_forall. intros j Hj. rewrite Hle. by apply Hlt.
  - intros j aj sj Hst Haj Hsj. rewrite array_of_store_eq.
    assert (j ∈ cores) as Hj by by apply elem_of_core_nodes.
    apply list_elem_of_lookup in Hj as [k Hk].
    destruct (Forall2_lookup_l _ _ _ _ _ Fa Hk) as (aj' & Hak & Haj').
    destruct (Forall2_lookup_l _ _ _ _ _ Fs Hk) as (sj' & Hsk & Hsj').
    simpl in Haj', Hsj'. simplify_eq.
    apply (lookup_put_in cores vals _ k).
    + apply NoDup_core_from.
    + done.
    + subst vals. rewrite lookup_zip_with, Hak. simpl.
      rewrite list_lookup_fmap, lookup_zip_with, list_lookup_fmap, Hsk. simpl.
      by rewrite Hak.
    + rewrite Hle. apply lookup_lt_is_Some. eauto.
Qed.

(** X18: when the area, slope and effective-area arrays have one entry per
    node, [_calc_effective_drainage_area] returns and sets the effective
    area of every core node with nonzero area [a] and slope [s] to
    [a * exp(-sat_param * s / a)]. *)
Theorem effective_area_values
    (np_exp : Q → Q) (m : V.Model) (w : World) (area slope : loc) :
  at_node (grid w) !! "drainage_area" = Some area →
  at_node (grid w) !! "topographic__steepest_slope" = Some slope →
  length (array_of w area) = length (status_at_node (grid w)) →
  length (array_of w slope) = length (status_at_node (grid w)) →
  length (array_of w (V.eff_area m)) = length (status_at_node (grid w)) →
  ∃ w', V._calc_effective_drainage_area np_exp m w = (Return tt, w')
    ∧ ∀ j aj sj, status_at_node (grid w) !! j = Some 0%Z →
        array_of w area !! j = Some aj → array_of w slope !! j = Some sj →
        ¬ (aj == 0)%Q →
        array_of w' (V.eff_area m) !! j
        = Some (aj * np_exp (- V.sat_param m * sj / aj))%Q.
Proof.
  intros Harea Hslope Hla Hls Hle.
  destruct (V_calc_run np_exp m w area slope Harea Hslope Hla Hls Hle)
    as (w' & Hrun & Hval).
  exists w'. split; [done|]. intros j aj sj Hst Haj Hsj _. by apply Hval.
Qed.

(** X19: with an exponential that maps the non-positive numbers into
    [0, 1] and a non-negative [sat_param], the effective area of a core
    node of positive area and non-negative slope lies between 0 and its
    drainage area. *)
Theorem effective_area_bounded
    (np_exp : Q → Q) (m : V.Model) (w : World) (area slope : loc)
    (j : nat) (aj sj : Q) :
  (∀ x, (x <= 0)%Q → (0 <= np_exp x)%Q ∧ (np_exp x <= 1)%Q) →
  (0 <= V.sat_param m)%Q →
  at_node (grid w) !! "drainage_area" = Some area →
  at_node (grid w) !! "topographic__steepest_slope" = Some slope →
  length (array_of w area) = length (status_at_node (grid w)) →
  length (array_of w slope) = length (status_at_node (grid w)) →
  length (array_of w (V.eff_area m)) = length (status_at_node (grid w)) →
  status_at_node (grid w) !! j = Some 0%Z →
  array_of w area !! j = Some aj → (0 < aj)%Q →
  array_of w slope !! j = Some sj → (0 <= sj)%Q →
  ∃ w' v, V._calc_effective_drainage_area np_exp m w = (Return tt, w')
    ∧ array_of w' (V.eff_area m) !! j = Some v
    ∧ (0 <= v)%Q ∧ (v <= aj)%Q.
Proof.
  intros Hexp Hsat Harea Hslope Hla Hls Hle Hst Haj Hpos Hsj Hs.
  destruct (V_calc_run np_exp m w area slope Harea Hslope Hla Hls Hle)
    as (w' & Hrun & Hval).
  exists w', (aj * np_exp (- V.sat_param m * sj / aj))%Q.
  split; [done|]. split; [by apply Hval|].
  assert (- V.sat_param m * sj / aj <= 0)%Q as Hx.
  { apply Qle_shift_div_r; [done|]. nra. }
  destruct (Hexp _ Hx) as [H0 H1]. split; nra.
Qed.

(** X20: without the drainage-area field or the slope field,
    [_calc_effective_drainage_area] raises KeyError and changes nothing. *)
Theorem effective_area_requires_fields (np_exp : Q → Q) (m : V.Model) (w : World) :
  at_node (grid w) !! "drainage_area" = None
  ∨ at_node (grid w) !! "topographic__steepest_slope" = None →
  V._calc_effective_drainage_area np_exp m w = (Raise KeyError, w).
Proof.
  intros H. unfold V._calc_effective_drainage_area, mbind, M_bind, field.
  destruct (at_node (grid w) !! "drainage_area"); simpl; [|done].
  destruct H as [H|H]; [done|]. by rewrite H.
Qed.

Lemma sample_exp_bounds x : (x <= 0)%Q → (0 <= sample_exp x)%Q ∧ (sample_exp x <= 1)%Q.
Proof.
  intros Hx. unfold sample_exp.
  assert (Qle_bool x 0 = true) as -> by by apply Qle_bool_iff.
  split.
  - apply Qle_shift_div_l; lra.
  - apply Qle_shift_div_r; lra.
Qed.

Lemma effective_area_values_witness :
  let m := V.mkModel 7%positive 50 in
  ∃ w', V._calc_effective_drainage_area sample_exp m eroded34 = (Return tt, w')
    ∧ ∀ j aj sj, status_at_node (grid eroded34) !! j = Some 0%Z →
        array_of eroded34 5%positive !! j = Some aj →
        array_of eroded34 6%positive !! j = Some sj →
        ¬ (aj == 0)%Q →
        array_of w' 7%positive !! j = Some (aj * sample_exp (- 50 * sj / aj))%Q.
Proof.
  intros m.
  apply (effective_area_values sample_exp m eroded34 5%positive 6%positive);
    reflexivity.
Defined.

Lemma effective_area_bounded_witness :
  let m := V.mkModel 7%positive 50 in
  ∃ w' v, V._calc_effective_drainage_area sample_exp m eroded34 = (Return tt, w')
    ∧ array_of w' 7%positive !! 5%nat = Some v
    ∧ (0 <= v)%Q ∧ (v <= 100)%Q.
Proof.
  intros m.
  apply (effective_area_bounded sample_exp m eroded34 5%positive 6%positive 5
           100 (1 # 10)).
  - apply sample_exp_bounds.
  - vm_compute. intros H. discriminate H.
  - reflexivity.
  - reflexivity.
  - reflexivity.
  - reflexivity.
  - reflexivity.
  - reflexivity.
  - reflexivity.
  - reflexivity.
  - reflexivity.
  - vm_compute. intros H. discriminate H.
Defined.

Lemma effective_area_requires_fields_witness :
  let m := V.mkModel 7%positive 50 in
  V._calc_effective_drainage_area sample_exp m bare5 = (Raise KeyError, bare5).
Proof.
  intros m. apply (effective_area_requires_fields sample_exp m bare5). by left.
Defined.
